(** * Complaint-phrase extraction of the quick-commerce dashboard (app.py)

    A shallow embedding of the "NLP BIGRAM ANALYSIS" block of [app.py]
    (lines 163-191): [clean_text], the [Counter] accumulation loop over the
    negative reviews, and the ranking [sort_values(...).head(10)].

    Python strings are sequences of Unicode code points; the [Counter] is an
    insertion-ordered dictionary; the data frame is the list of its rows. *)

From Stdlib Require Import String Ascii QArith.
From Stdlib Require Import List NArith ZArith Arith Bool Lia.
From Stdlib Require Import Permutation Sorted.
Import ListNotations.

Open Scope nat_scope.

(* ================================================================== *)
(** ** Python strings *)
(* ================================================================== *)

Module PyStr.

(** A character is a Unicode code point, a [str] is a list of them. *)
Definition char := N.
Definition pystr := list char.

Definition pystr_eq_dec : forall a b : pystr, {a = b} + {a <> b} :=
  list_eq_dec N.eq_dec.

(** ASCII literals of the development are written as Rocq strings. *)
Definition str (s : string) : pystr :=
  map N_of_ascii (list_ascii_of_string s).

Definition in_range (lo hi c : char) : bool := ((lo <=? c) && (c <=? hi))%N.

Definition is_upper_az (c : char) : bool := in_range 0x41%N 0x5A%N c.
Definition is_lower_az (c : char) : bool := in_range 0x61%N 0x7A%N c.

(** [str.isspace] on one code point.  The regular-expression class [\s]
    (on [str] patterns) and the separator test of [str.split()] use this
    same set. *)
Definition isspace (c : char) : bool :=
  in_range 0x09%N 0x0D%N c || in_range 0x1C%N 0x20%N c
  || (c =? 0x85)%N || (c =? 0xA0)%N || (c =? 0x1680)%N
  || in_range 0x2000%N 0x200A%N c
  || (c =? 0x2028)%N || (c =? 0x2029)%N || (c =? 0x202F)%N
  || (c =? 0x205F)%N || (c =? 0x3000)%N.

(** [str.lower()], one code point at a time.  The rows written out are
    those of the Unicode lowercase mapping whose image contains a letter
    a-z: the capitals A-Z, U+0130 (capital I with dot above, which becomes
    "i" followed by the combining dot U+0307) and U+212A (the Kelvin sign,
    which becomes "k").  Every other code point is mapped by [str.lower()]
    to code points that are neither a-z nor white space, and white space is
    mapped to itself; as [clean_text], the only caller, deletes what is
    neither a-z nor white space, those code points are left in place. *)
Definition lower_char (c : char) : list char :=
  if is_upper_az c then [(c + 0x20)%N]
  else if (c =? 0x130)%N then [0x69%N; 0x307%N]
  else if (c =? 0x212A)%N then [0x6B%N]
  else [c].

Definition lower (text : pystr) : pystr := flat_map lower_char text.

(** [text.split()]: scan the text, cut at every run of white space and
    drop the empty pieces.  [cur] holds the current piece, reversed. *)
Fixpoint split_from (cur : pystr) (s : pystr) : list pystr :=
  match s with
  | [] => match cur with [] => [] | _ :: _ => [rev cur] end
  | c :: s' =>
      if isspace c then
        match cur with
        | [] => split_from [] s'
        | _ :: _ => rev cur :: split_from [] s'
        end
      else split_from (c :: cur) s'
  end.

Definition split (s : pystr) : list pystr := split_from [] s.

(** The wording of the specification, for comparison with [split]:
    cut at every white-space character (keeping empty pieces) ... *)
Fixpoint fields (s : pystr) : list pystr :=
  match s with
  | [] => [[]]
  | c :: s' =>
      if isspace c then [] :: fields s'
      else match fields s' with
           | f :: fs => (c :: f) :: fs
           | [] => [[c]]
           end
  end.

Definition nonempty (t : pystr) : bool :=
  match t with [] => false | _ :: _ => true end.

(** ... and discard the empty tokens. *)
Definition split_spec (s : pystr) : list pystr := filter nonempty (fields s).

End PyStr.
Import PyStr.

(* ================================================================== *)
(** ** clean_text and the bigrams of one review *)
(* ================================================================== *)

(** The complement of the class [[^a-z\s]]: what [re.sub] leaves. *)
Definition kept (c : char) : bool := is_lower_az c || isspace c.

(** [re.sub(r"[^a-z\s]", "", text.lower())] *)
Definition clean_text (text : pystr) : pystr := filter kept (lower text).

Definition space : char := 0x20%N.

(** [f"{words[i]} {words[i+1]}"] *)
Definition phrase_at (words : list pystr) (i : nat) : pystr :=
  nth i words [] ++ [space] ++ nth (i + 1) words [].

(** The phrases of [for i in range(len(words) - 1)], in loop order;
    [range] of a negative number is empty, as is [seq 0 (0 - 1)]. *)
Definition bigrams (words : list pystr) : list pystr :=
  map (phrase_at words) (seq 0 (length words - 1)).

(** [words = clean_text(review).split()] *)
Definition tokens (review : pystr) : list pystr := split (clean_text review).

(* ================================================================== *)
(** ** The Counter: an insertion-ordered dictionary of counts *)
(* ================================================================== *)

Module Counter.

(** The entries are kept in insertion order, which is the order
    [counter.items()] yields them in. *)
Definition t := list (pystr * nat).

Definition empty : t := [].

(** [counter[p]]: a missing key reads as 0 and is not inserted. *)
Fixpoint getitem (c : t) (p : pystr) : nat :=
  match c with
  | [] => 0
  | (q, n) :: c' => if pystr_eq_dec q p then n else getitem c' p
  end.

(** [counter[p] = v]: a present key keeps its place, a new key goes last. *)
Fixpoint setitem (c : t) (p : pystr) (v : nat) : t :=
  match c with
  | [] => [(p, v)]
  | (q, n) :: c' =>
      if pystr_eq_dec q p then (q, v) :: c' else (q, n) :: setitem c' p v
  end.

(** [counter[p] += 1] *)
Definition incr (c : t) (p : pystr) : t := setitem c p (getitem c p + 1).

Definition items (c : t) : list (pystr * nat) := c.

Definition keys (c : t) : list pystr := map fst c.

(** The invariant of the loop: distinct keys, no count of 0. *)
Definition well_formed (c : t) : Prop :=
  NoDup (keys c) /\ Forall (fun r => 1 <= snd r) c.

End Counter.

(* ================================================================== *)
(** ** The accumulation loop *)
(* ================================================================== *)

Definition neutral_phrases : list pystr :=
  [ str "fast delivery"; str "good service"; str "quick delivery";
    str "nice delivery"; str "fresh items" ].

(** [phrase in denylist] *)
Definition denied (denylist : list pystr) (phrase : pystr) : bool :=
  if in_dec pystr_eq_dec phrase denylist then true else false.

(** The body of the inner loop, once [phrase] is built. *)
Definition count_phrase (denylist : list pystr)
    (counter : Counter.t) (phrase : pystr) : Counter.t :=
  if denied denylist phrase then counter else Counter.incr counter phrase.

(** The body of the outer loop. *)
Definition count_review (denylist : list pystr)
    (counter : Counter.t) (review : pystr) : Counter.t :=
  fold_left (count_phrase denylist) (bigrams (tokens review)) counter.

(** [counter = Counter()] followed by the loop over the reviews. *)
Definition count_reviews (denylist : list pystr)
    (reviews : list pystr) : Counter.t :=
  fold_left (count_review denylist) reviews Counter.empty.

(** The phrases the loop counts, in the order it meets them. *)
Definition surviving (denylist : list pystr) (review : pystr) : list pystr :=
  filter (fun p => negb (denied denylist p)) (bigrams (tokens review)).

Definition phrase_stream (denylist : list pystr)
    (reviews : list pystr) : list pystr :=
  flat_map (surviving denylist) reviews.

(* ================================================================== *)
(** ** The data frame: records, dropna, sort_values, head *)
(* ================================================================== *)

(** The two columns of [df] the block reads.  [load_data] has dropped the
    rows whose rating is not a number; a missing feedback is [None]. *)
Record FeedbackRecord := {
  service_rating : Q;
  customer_feedback : option pystr
}.

(** [df[df["service_rating"] <= 2]] *)
Definition negative_df (df : list FeedbackRecord) : list FeedbackRecord :=
  filter (fun r => Qle_bool (service_rating r) 2) df.

(** [Series.dropna()] *)
Definition dropna (col : list (option pystr)) : list pystr :=
  flat_map (fun x => match x with Some t => [t] | None => [] end) col.

Definition row : Type := pystr * nat.

Definition frequency (r : row) : nat := snd r.

(** [DataFrame.head(n)] is [iloc[:n]]: the first [n] rows, and for a
    negative [n] all rows but the last [-n]. *)
Definition head (n : Z) (rows : list row) : list row :=
  if (0 <=? n)%Z then firstn (Z.to_nat n) rows
  else firstn (List.length rows - Z.to_nat (- n)) rows.

(** [sort_values("Frequency", ascending=False)] with the default
    [kind="quicksort"].  The library promises the rows back, reordered so
    that Frequency does not increase; the order among rows of equal
    Frequency is left to the sorting routine, which for this kind is not a
    stable one. *)
Class SortValues := {
  sort_values : list row -> list row;
  sort_values_perm : forall rows, Permutation (sort_values rows) rows;
  sort_values_desc :
    forall rows,
      StronglySorted (fun a b => frequency b <= frequency a) (sort_values rows)
}.

(** The rows handed to the sort: [pd.DataFrame(counter.items(), ...)]. *)
Definition frame (denylist : list pystr) (texts : list (option pystr))
  : list row :=
  Counter.items (count_reviews denylist (dropna texts)).

(** The extraction as the specification names it, with the sort routine
    [sort] left open. *)
Definition extract_top_phrases (sort : list row -> list row)
    (texts : list (option pystr)) (denylist : list pystr) (top_k : Z)
  : list row :=
  head top_k (sort (frame denylist texts)).

(** Lines 166-189 of the program. *)
Definition bigram_df (sort : list row -> list row)
    (df : list FeedbackRecord) : list row :=
  extract_top_phrases sort
    (map customer_feedback (negative_df df)) neutral_phrases 10.

(** A sort that keeps rows of equal Frequency in the order it received
    them. *)
Fixpoint insert_desc (e : row) (l : list row) : list row :=
  match l with
  | [] => [e]
  | x :: l' =>
      if frequency x <=? frequency e then e :: l else x :: insert_desc e l'
  end.

Definition stable_sort_desc (rows : list row) : list row :=
  fold_right insert_desc [] rows.



(** [x] occurs in [l] at a position before an occurrence of [y]. *)
Inductive Before {A : Type} (x y : A) : list A -> Prop :=
| Before_here : forall l, In y l -> Before x y (x :: l)
| Before_later : forall z l, Before x y l -> Before x y (z :: l).

(** The first occurrence of [p] in the scan comes before the first
    occurrence of [q]. *)
Inductive FirstBefore (p q : pystr) : list pystr -> Prop :=
| FirstBefore_here : forall l, p <> q -> In q l -> FirstBefore p q (p :: l)
| FirstBefore_later :
    forall z l, z <> p -> z <> q -> FirstBefore p q l ->
                 FirstBefore p q (z :: l).

(** A sort routine is stable when rows of equal Frequency leave it in the
    order they entered it. *)
Definition Stable (sort : list row -> list row) : Prop :=
  forall rows a b,
    NoDup (map fst rows) ->
    frequency a = frequency b ->
    Before a b rows -> Before a b (sort rows).

(* ================================================================== *)
(** ** Predicates and inputs used in the statements *)
(* ================================================================== *)

(** A text that is missing, or whose normalized form holds white space
    only (the empty string included). *)
Definition blank (t : option pystr) : bool :=
  match t with
  | None => true
  | Some s => forallb isspace (clean_text s)
  end.

(** A code point that leaves nothing in the normalized text. *)
Definition is_deleted (c : char) : bool :=
  match filter kept (lower_char c) with
  | [] => true
  | _ :: _ => false
  end.

(** Put a prefix in front of the first field. *)
Definition attach (pre : pystr) (fs : list pystr) : list pystr :=
  match fs with
  | f :: fs' => (pre ++ f) :: fs'
  | [] => [pre]
  end.

(** The inputs of the examples. *)
Definition e_acute : char := 0xE9%N.

Definition capital_i_dot : char := 0x130%N.
Definition kelvin_sign : char := 0x212A%N.

Definition texts18 : list (option pystr) :=
  [Some (str "a b c d e f g h i j k l m n o p q r s")].

Definition spec_example : list (option pystr) :=
  [Some (str "late delivery again"); Some (str "late delivery always")].


Definition low_rated : FeedbackRecord :=
  {| service_rating := 1; customer_feedback := Some (str "late delivery again") |}.

Definition high_rated : FeedbackRecord :=
  {| service_rating := 5; customer_feedback := Some (str "rude staff again") |}.

(** Settles comparisons of code points with constants once the bounds
    on the code point are among the hypotheses. *)
Ltac decide_cmp :=
  repeat match goal with
  | |- context [(?a <=? ?b)%N] =>
      first [ rewrite (proj2 (N.leb_le a b)) by lia
            | rewrite (proj2 (N.leb_gt a b)) by lia ]
  | |- context [(?a =? ?b)%N] =>
      first [ rewrite (proj2 (N.eqb_eq a b)) by lia
            | rewrite (proj2 (N.eqb_neq a b)) by lia ]
  end.

(* ================================================================== *)
(** ** load_data: column names, kept rows, synthetic time, SLA flag *)
(* ================================================================== *)

(** [name.lstrip()], [name.rstrip()] and [name.strip()]. *)
Fixpoint lstrip (s : pystr) : pystr :=
  match s with
  | [] => []
  | c :: s' => if isspace c then lstrip s' else s
  end.

Definition rstrip (s : pystr) : pystr := rev (lstrip (rev s)).

Definition strip (s : pystr) : pystr := rstrip (lstrip s).

Definition underscore : char := 0x5F%N.

(** [name.replace(" ", "_")] *)
Definition replace_space (s : pystr) : pystr :=
  map (fun c => if (c =? space)%N then underscore else c) s.

(** A row of the file once [pd.to_numeric(..., errors="coerce")] has run:
    a numeric cell that does not parse, or is missing, is [None]. *)
Record RawRow := {
  raw_platform : option pystr;
  raw_product_category : option pystr;
  raw_delivery_time : option Q;
  raw_service_rating : option Q;
  raw_customer_feedback : option pystr;
  raw_delivery_delay : option pystr;
  raw_refund_requested : option pystr
}.

(** A row of the frame [load_data] returns.  [order_datetime] is counted
    in minutes after [datetime(2024, 1, 1)]. *)
Record Order := {
  platform : option pystr;
  product_category : option pystr;
  delivery_time : Q;
  o_service_rating : Q;
  o_customer_feedback : option pystr;
  delivery_delay : option pystr;
  refund_requested : option pystr;
  order_datetime : Z;
  sla_breach : pystr
}.

(** [df.dropna(subset=["delivery_time_(minutes)", "service_rating"])],
    each kept row with its two numbers. *)
Definition dropna_subset (raw : list RawRow) : list (RawRow * Q * Q) :=
  flat_map (fun r =>
              match raw_delivery_time r, raw_service_rating r with
              | Some t, Some s => [(r, t, s)]
              | _, _ => []
              end) raw.

(** [start + timedelta(minutes=i * 20)] *)
Definition synthetic_datetime (i : nat) : Z := (Z.of_nat i * 20)%Z.

(** [np.where(df["delivery_time_(minutes)"] > 30, "Yes", "No")] *)
Definition sla_flag (t : Q) : pystr :=
  if Qle_bool t 30 then str "No" else str "Yes".

Definition load_row (i : nat) (x : RawRow * Q * Q) : Order :=
  let '(r, t, s) := x in
  {| platform := raw_platform r;
     product_category := raw_product_category r;
     delivery_time := t;
     o_service_rating := s;
     o_customer_feedback := raw_customer_feedback r;
     delivery_delay := option_map lower (raw_delivery_delay r);
     refund_requested := option_map lower (raw_refund_requested r);
     order_datetime := synthetic_datetime i;
     sla_breach := sla_flag t |}.

(** The rows of [load_data()], the i-th kept row getting the i-th stamp. *)
Fixpoint load_rows (i : nat) (kept : list (RawRow * Q * Q)) : list Order :=
  match kept with
  | [] => []
  | x :: kept' => load_row i x :: load_rows (S i) kept'
  end.

Definition load_data (raw : list RawRow) : list Order :=
  load_rows 0 (dropna_subset raw).

(** [load_data] comes back with these rows when it comes back: its
    [.str.lower()] raises AttributeError on a flag column that holds no
    string, and a frame left without rows has no datetime column to take
    the hour of. *)
Definition holds_string (col : list (option pystr)) : Prop :=
  exists s, In (Some s) col.

Definition load_succeeds (raw : list RawRow) : Prop :=
  holds_string (map raw_delivery_delay raw)
  /\ holds_string (map raw_refund_requested raw)
  /\ load_data raw <> [].

(** The datetime column holds the stamps of frames of at most this many
    rows (its last instant is 2262-04-11 23:47). *)
Definition max_stamped_rows : Z := 6266088%Z.

(* ================================================================== *)
(** ** The sidebar filter *)
(* ================================================================== *)

Definition cell_eq_dec : forall a b : option pystr, {a = b} + {a <> b}.
Proof. decide equality. apply pystr_eq_dec. Defined.

(** [Series.unique()]: the values in order of first appearance. *)
Fixpoint unique_from (seen col : list (option pystr))
  : list (option pystr) :=
  match col with
  | [] => []
  | x :: col' =>
      if in_dec cell_eq_dec x seen then unique_from seen col'
      else x :: unique_from (x :: seen) col'
  end.

Definition unique (col : list (option pystr)) : list (option pystr) :=
  unique_from [] col.

(** [Series.isin(values)] on one cell; a missing cell matches a missing
    value. *)
Definition isin (values : list (option pystr)) (x : option pystr) : bool :=
  if in_dec cell_eq_dec x values then true else false.

(** [df[(df["platform"].isin(platforms))
        & (df["product_category"].isin(categories))]] *)
Definition sidebar_filter (platforms categories : list (option pystr))
    (df : list Order) : list Order :=
  filter (fun o => isin platforms (platform o)
                   && isin categories (product_category o)) df.

(** The two columns the phrase analysis reads. *)
Definition feedback_record (o : Order) : FeedbackRecord :=
  {| service_rating := o_service_rating o;
     customer_feedback := o_customer_feedback o |}.

(** The complaint table of the script, from the raw rows and the two
    selections of the sidebar. *)
Definition script_bigram_df (sort : list row -> list row)
    (platforms categories : list (option pystr)) (raw : list RawRow)
  : list row :=
  bigram_df sort
    (map feedback_record (sidebar_filter platforms categories (load_data raw))).

(* ================================================================== *)
(** ** groupby(...).size() and the evening orders *)
(* ================================================================== *)

(** The order of [str]: code point by code point. *)
Fixpoint pystr_compare (a b : pystr) : comparison :=
  match a, b with
  | [], [] => Eq
  | [], _ :: _ => Lt
  | _ :: _, [] => Gt
  | x :: a', y :: b' =>
      match (x ?= y)%N with
      | Eq => pystr_compare a' b'
      | Lt => Lt
      | Gt => Gt
      end
  end.

Definition pystr_lt (a b : pystr) : Prop := pystr_compare a b = Lt.

(** One more row for group [k], the groups being kept in key order. *)
Fixpoint size_insert (k : pystr) (groups : list (pystr * nat))
  : list (pystr * nat) :=
  match groups with
  | [] => [(k, 1)]
  | (k', n) :: groups' =>
      match pystr_compare k k' with
      | Eq => (k', n + 1) :: groups'
      | Lt => (k, 1) :: groups
      | Gt => (k', n) :: size_insert k groups'
      end
  end.

(** [groupby(col).size()]: one row per value that occurs, in key order. *)
Definition groupby_size (col : list pystr) : list (pystr * nat) :=
  fold_left (fun groups k => size_insert k groups) col [].

(** [df.groupby("sla_breach").size().reset_index(name="Orders")] *)
Definition sla_df (df : list Order) : list (pystr * nat) :=
  groupby_size (map sla_breach df).

(** [order_datetime.dt.hour] *)
Definition hour (stamp : Z) : Z := ((stamp / 60) mod 24)%Z.

(** [df[df["order_datetime"].dt.hour.between(18, 23)]] *)
Definition evening (df : list Order) : list Order :=
  filter (fun o => (18 <=? hour (order_datetime o))%Z
                   && (hour (order_datetime o) <=? 23)%Z) df.

(** The index of [df.groupby(col)[...].mean()]: the values that occur,
    missing ones left out, in key order. *)
Definition group_keys (col : list (option pystr)) : list pystr :=
  map fst (groupby_size (dropna col)).

(** What the evening panel shows: the chart, or [st.info] when
    [evening.empty]. *)
Inductive panel := Chart | NoEveningData.

Definition evening_panel (df : list Order) : panel :=
  match evening df with
  | [] => NoEveningData
  | _ :: _ => Chart
  end.

(** The "Executive Insights" block as far as its indexing goes: the
    numbers it prints are floating-point means and are left out; kept is
    whether [.iloc[-1]] of the two rating series and [.index[0]] of
    [evening_stress] find an entry. *)
Inductive outcome := Rendered | IndexError.

Definition executive_insights (df : list Order) : outcome :=
  match group_keys (map delivery_delay df) with
  | [] => IndexError
  | _ :: _ =>
      match group_keys (map refund_requested df) with
      | [] => IndexError
      | _ :: _ =>
          match group_keys (map platform (evening df)) with
          | [] => IndexError
          | _ :: _ => Rendered
          end
      end
  end.

(** The bars of the SLA chart for given numbers of orders within and
    beyond 30 minutes: a bar is there only when its number is not 0. *)
Definition sla_bars (within beyond : nat) : list (pystr * nat) :=
  (if within =? 0 then [] else [(str "No", within)])
  ++ (if beyond =? 0 then [] else [(str "Yes", beyond)]).

Definition count_within (df : list Order) : nat :=
  List.length (filter (fun o => Qle_bool (delivery_time o) 30) df).

Definition count_beyond (df : list Order) : nat :=
  List.length (filter (fun o => negb (Qle_bool (delivery_time o) 30)) df).

(** A row of a small file, for the examples. *)
Definition raw_late : RawRow :=
  {| raw_platform := Some (str "Blinkit");
     raw_product_category := Some (str "Grocery");
     raw_delivery_time := Some 45%Q;
     raw_service_rating := Some 1%Q;
     raw_customer_feedback := Some (str "Late delivery again");
     raw_delivery_delay := Some (str "Yes");
     raw_refund_requested := Some (str "No") |}.

(** A string that is empty or has no white space at either end. *)
Definition solid_head (s : pystr) : Prop :=
  match s with
  | [] => True
  | c :: _ => isspace c = false
  end.

Definition solid_ends (s : pystr) : Prop :=
  solid_head s /\ solid_head (rev s).

Definition is_ascii (c : char) : Prop := (c < 0x80)%N.

(** A character of a plain ASCII name: below U+0080 and not one of the
    separator controls U+001C to U+001F. *)
Definition plain_ascii (c : char) : Prop :=
  (c < 0x80)%N /\ ~ (0x1C <= c <= 0x1F)%N.

(** [lower] on an ASCII character: a capital A-Z becomes its small
    letter, every other character stays. *)
Definition lower_ascii (c : char) : char :=
  if is_upper_az c then (c + 0x20)%N else c.

(** One column name through
    [df.columns.str.strip().str.lower().str.replace(" ", "_")], for a name
    written in plain ASCII; names with other characters are not
    modelled. *)
Definition standardize_column (name : pystr) : pystr :=
  replace_space (map lower_ascii (strip name)).

(** One character of an ASCII name through [standardize_column]. *)
Definition standard_char (c : char) : char :=
  if (lower_ascii c =? space)%N then underscore else lower_ascii c.

(** A phrase, and a row, that the denylist lets through. *)
Definition allowed (denylist : list pystr) (p : pystr) : bool :=
  negb (denied denylist p).

Definition allowed_row (denylist : list pystr) (r : row) : bool :=
  allowed denylist (fst r).

(* ================================================================== *)
(** ** Facts about split and clean_text *)
(* ================================================================== *)

Example tokens_cafe :
  tokens (str "caf" ++ [e_acute] ++ str " wasn't delivered!!")
  = [str "caf"; str "wasnt"; str "delivered"].
Proof. vm_compute. reflexivity. Qed.

Lemma fields_not_nil (s : pystr) : fields s <> [].
Proof.
  destruct s as [|c s]; simpl; [discriminate|].
  destruct (isspace c); [discriminate|].
  destruct (fields s); discriminate.
Qed.

Lemma nonempty_rev_cons (c : char) (cur : pystr) :
  nonempty (rev (c :: cur)) = true.
Proof.
  simpl. destruct (rev cur); reflexivity.
Qed.

Lemma split_from_fields (s cur : pystr) :
  split_from cur s = filter nonempty (attach (rev cur) (fields s)).
Proof.
  revert cur. induction s as [|c s IH]; intro cur.
  - simpl. rewrite app_nil_r. destruct cur as [|d cur]; [reflexivity|].
    rewrite nonempty_rev_cons. reflexivity.
  - simpl. destruct (isspace c) eqn:Hc.
    + simpl. rewrite app_nil_r.
      assert (Hs : split_from [] s = filter nonempty (fields s)).
      { rewrite IH. simpl. pose proof (fields_not_nil s) as Hn.
        destruct (fields s); [contradiction|reflexivity]. }
      destruct cur as [|d cur].
      * simpl. exact Hs.
      * rewrite nonempty_rev_cons. f_equal. exact Hs.
    + rewrite IH. pose proof (fields_not_nil s) as Hn.
      destruct (fields s) as [|f fs]; [contradiction|].
      simpl. rewrite <- app_assoc. reflexivity.
Qed.

Lemma split_is_split_spec (s : pystr) : split s = split_spec s.
Proof.
  unfold split, split_spec. rewrite split_from_fields. simpl.
  pose proof (fields_not_nil s) as Hn.
  destruct (fields s); [contradiction|reflexivity].
Qed.

Lemma split_from_Forall (Q : char -> Prop) (s cur : pystr) :
  Forall Q cur ->
  (forall c, In c s -> isspace c = false -> Q c) ->
  Forall (fun t => t <> [] /\ Forall Q t) (split_from cur s).
Proof.
  revert cur. induction s as [|c s IH]; intros cur Hcur Hs.
  - simpl. destruct cur as [|d cur]; constructor; [|constructor].
    split.
    + intro E. apply (f_equal (@List.length _)) in E.
      rewrite length_rev in E. discriminate.
    + apply Forall_rev. exact Hcur.
  - simpl. destruct (isspace c) eqn:Hc.
    + assert (Hrest : Forall (fun t => t <> [] /\ Forall Q t)
                             (split_from [] s)).
      { apply IH; [constructor|]. intros; apply Hs; simpl; auto. }
      destruct cur as [|d cur]; [exact Hrest|].
      constructor; [|exact Hrest]. split.
      * intro E. apply (f_equal (@List.length _)) in E.
        rewrite length_rev in E. discriminate.
      * apply Forall_rev. exact Hcur.
    + apply IH.
      * constructor; [|exact Hcur]. apply Hs; simpl; auto.
      * intros; apply Hs; simpl; auto.
Qed.

Lemma split_no_space (s cur : pystr) :
  s <> [] \/ cur <> [] ->
  Forall (fun c => isspace c = false) s ->
  split_from cur s = [rev cur ++ s].
Proof.
  revert cur. induction s as [|c s IH]; intros cur Hne Hs.
  - simpl. rewrite app_nil_r. destruct cur; [|reflexivity].
    destruct Hne as [H|H]; contradiction H; reflexivity.
  - simpl. inversion Hs as [|? ? Hc Hs']; subst. rewrite Hc.
    rewrite IH; [|right; discriminate|exact Hs'].
    simpl. rewrite <- app_assoc. reflexivity.
Qed.

Lemma clean_text_app (a b : pystr) :
  clean_text (a ++ b) = clean_text a ++ clean_text b.
Proof.
  unfold clean_text, lower. rewrite flat_map_app, filter_app. reflexivity.
Qed.

Lemma clean_text_kept (text : pystr) :
  Forall (fun c => kept c = true) (clean_text text).
Proof.
  unfold clean_text. apply Forall_forall. intros c Hc.
  apply filter_In in Hc. tauto.
Qed.

Lemma clean_text_cons (c : char) (text : pystr) :
  clean_text (c :: text) = filter kept (lower_char c) ++ clean_text text.
Proof.
  unfold clean_text, lower. simpl. rewrite filter_app. reflexivity.
Qed.

(** What one code point leaves behind. *)
Lemma clean_char_cases (c : char) :
  filter kept (lower_char c) =
    if is_upper_az c then [(c + 0x20)%N]
    else if kept c then [c]
    else if (c =? 0x130)%N then [0x69%N]
    else if (c =? 0x212A)%N then [0x6B%N]
    else [].
Proof.
  unfold lower_char.
  destruct (is_upper_az c) eqn:Hu.
  - unfold is_upper_az, in_range in Hu.
    apply andb_true_iff in Hu. destruct Hu as [H1 H2].
    apply N.leb_le in H1. apply N.leb_le in H2.
    simpl. assert (Hk : kept (c + 0x20)%N = true).
    { unfold kept, is_lower_az, in_range. apply orb_true_iff. left.
      apply andb_true_iff. split; apply N.leb_le; lia. }
    rewrite Hk. reflexivity.
  - destruct (c =? 0x130)%N eqn:H130.
    + apply N.eqb_eq in H130. subst c. reflexivity.
    + destruct (c =? 0x212A)%N eqn:H212.
      * apply N.eqb_eq in H212. subst c. reflexivity.
      * simpl. destruct (kept c); reflexivity.
Qed.

Lemma tokens_lowercase_words (text : pystr) :
  Forall (fun t => t <> [] /\ Forall (fun c => is_lower_az c = true) t)
         (tokens text).
Proof.
  unfold tokens, split. apply split_from_Forall; [constructor|].
  intros c Hc Hsp.
  pose proof (clean_text_kept text) as Hk.
  rewrite Forall_forall in Hk. specialize (Hk c Hc).
  unfold kept in Hk. rewrite Hsp, orb_false_r in Hk. exact Hk.
Qed.

(* ================================================================== *)
(** ** Facts about bigrams *)
(* ================================================================== *)

Lemma length_bigrams (words : list pystr) :
  List.length (bigrams words) = List.length words - 1.
Proof.
  unfold bigrams. rewrite length_map, length_seq. reflexivity.
Qed.

Lemma nth_error_bigrams (words : list pystr) (i : nat) :
  i < List.length words - 1 ->
  nth_error (bigrams words) i = Some (phrase_at words i).
Proof.
  intro Hi. unfold bigrams. rewrite nth_error_map.
  rewrite (nth_error_nth' _ 0) by (rewrite length_seq; exact Hi).
  rewrite seq_nth by exact Hi. reflexivity.
Qed.

(** The loop over indices is the sliding window over neighbours. *)
Lemma bigrams_cons2 (w1 w2 : pystr) (words : list pystr) :
  bigrams (w1 :: w2 :: words)
  = (w1 ++ [space] ++ w2) :: bigrams (w2 :: words).
Proof.
  unfold bigrams.
  change (List.length (w1 :: w2 :: words) - 1) with (S (List.length words)).
  change (List.length (w2 :: words) - 1) with (List.length words - 0).
  rewrite Nat.sub_0_r.
  simpl seq. simpl map. f_equal.
  rewrite <- seq_shift, map_map. apply map_ext.
  intro i. unfold phrase_at. reflexivity.
Qed.

Lemma bigrams_short (words : list pystr) :
  List.length words <= 1 -> bigrams words = [].
Proof.
  intro H. pose proof (length_bigrams words) as L.
  destruct (bigrams words); [reflexivity|]. simpl in L. lia.
Qed.

(* ================================================================== *)
(** ** Facts about the Counter *)
(* ================================================================== *)

Module CounterFacts.
Import Counter.

Lemma getitem_setitem (c : t) (p q : pystr) (v : nat) :
  getitem (setitem c p v) q = if pystr_eq_dec p q then v else getitem c q.
Proof.
  induction c as [|[k n] c IH]; simpl.
  - destruct (pystr_eq_dec p q); reflexivity.
  - destruct (pystr_eq_dec k p) as [E|E]; simpl.
    + subst k. destruct (pystr_eq_dec p q); reflexivity.
    + destruct (pystr_eq_dec k q) as [E'|E'].
      * subst k. destruct (pystr_eq_dec p q); [congruence|reflexivity].
      * exact IH.
Qed.

Lemma keys_setitem (c : t) (p : pystr) (v : nat) :
  keys (setitem c p v)
  = if in_dec pystr_eq_dec p (keys c) then keys c else keys c ++ [p].
Proof.
  unfold keys. induction c as [|[k n] c IH]; simpl.
  - reflexivity.
  - destruct (pystr_eq_dec k p) as [E|E]; simpl.
    + reflexivity.
    + rewrite IH.
      destruct (in_dec pystr_eq_dec p (map fst c)); reflexivity.
Qed.

Lemma keys_incr (c : t) (p : pystr) :
  keys (incr c p)
  = if in_dec pystr_eq_dec p (keys c) then keys c else keys c ++ [p].
Proof. apply keys_setitem. Qed.

Lemma getitem_incr (c : t) (p q : pystr) :
  getitem (incr c p) q
  = if pystr_eq_dec p q then getitem c q + 1 else getitem c q.
Proof.
  unfold incr. rewrite getitem_setitem.
  destruct (pystr_eq_dec p q); [subst; reflexivity|reflexivity].
Qed.

Lemma getitem_fold_incr (s : list pystr) (c : t) (q : pystr) :
  getitem (fold_left incr s c) q
  = getitem c q + count_occ pystr_eq_dec s q.
Proof.
  revert c. induction s as [|p s IH]; intro c; simpl.
  - lia.
  - rewrite IH, getitem_incr.
    destruct (pystr_eq_dec p q); lia.
Qed.

(** The keys after a run of increments: the old keys, then the new
    phrases. *)
Lemma keys_fold_incr (s : list pystr) (c : t) :
  exists extra,
    keys (fold_left incr s c) = keys c ++ extra
    /\ forall x, In x extra <-> In x s /\ ~ In x (keys c).
Proof.
  revert c. induction s as [|p s IH]; intro c; simpl.
  - exists []. rewrite app_nil_r. split; [reflexivity|].
    intro x; simpl; tauto.
  - destruct (IH (incr c p)) as [extra [Hk Hx]].
    rewrite keys_incr in Hk, Hx.
    destruct (in_dec pystr_eq_dec p (keys c)) as [Hin|Hnin].
    + exists extra. split; [exact Hk|].
      intro x. rewrite Hx. split.
      * tauto.
      * intros [[E|H] Hn]; [subst; contradiction|tauto].
    + exists (p :: extra). split.
      * rewrite Hk, <- app_assoc. reflexivity.
      * intro x. simpl. rewrite Hx, in_app_iff. simpl.
        destruct (pystr_eq_dec p x) as [E|E]; [subst; tauto|].
        tauto.
Qed.

Lemma in_keys_fold_incr (s : list pystr) (x : pystr) :
  In x (keys (fold_left incr s empty)) <-> In x s.
Proof.
  destruct (keys_fold_incr s empty) as [extra [Hk Hx]].
  rewrite Hk. simpl. rewrite Hx. simpl. tauto.
Qed.

Lemma setitem_positive (c : t) (p : pystr) (v : nat) :
  1 <= v ->
  Forall (fun r => 1 <= snd r) c ->
  Forall (fun r => 1 <= snd r) (setitem c p v).
Proof.
  intros Hv. induction c as [|[k n] c IH]; intro H; simpl.
  - constructor; [exact Hv|constructor].
  - inversion H; subst. destruct (pystr_eq_dec k p).
    + constructor; [exact Hv|assumption].
    + constructor; [assumption|apply IH; assumption].
Qed.

Lemma incr_well_formed (c : t) (p : pystr) :
  well_formed c -> well_formed (incr c p).
Proof.
  intros [Hn Hp]. split.
  - rewrite keys_incr.
    destruct (in_dec pystr_eq_dec p (keys c)) as [Hin|Hnin]; [exact Hn|].
    apply NoDup_rev in Hn. rewrite <- (rev_involutive (keys c ++ [p])).
    apply NoDup_rev. rewrite rev_app_distr. simpl.
    constructor; [|exact Hn]. rewrite <- in_rev. exact Hnin.
  - apply setitem_positive; [lia|exact Hp].
Qed.

Lemma fold_incr_well_formed (s : list pystr) (c : t) :
  well_formed c -> well_formed (fold_left incr s c).
Proof.
  revert c. induction s as [|p s IH]; intros c H; simpl; [exact H|].
  apply IH, incr_well_formed, H.
Qed.

Lemma empty_well_formed : well_formed empty.
Proof. split; constructor. Qed.

End CounterFacts.
Import CounterFacts.

(* ================================================================== *)
(** ** The loop counts the stream of surviving phrases *)
(* ================================================================== *)

Lemma count_review_stream (denylist : list pystr) (review : pystr)
    (c : Counter.t) :
  count_review denylist c review
  = fold_left Counter.incr (surviving denylist review) c.
Proof.
  unfold count_review, surviving.
  generalize (bigrams (tokens review)) as l. intro l. revert c.
  induction l as [|p l IH]; intro c; simpl; [reflexivity|].
  unfold count_phrase at 2. destruct (denied denylist p); simpl; apply IH.
Qed.

Lemma fold_count_review_stream (denylist : list pystr)
    (reviews : list pystr) (c : Counter.t) :
  fold_left (count_review denylist) reviews c
  = fold_left Counter.incr (phrase_stream denylist reviews) c.
Proof.
  unfold phrase_stream. revert c.
  induction reviews as [|r reviews IH]; intro c; simpl; [reflexivity|].
  rewrite fold_left_app, IH, count_review_stream. reflexivity.
Qed.

Lemma count_reviews_stream (denylist : list pystr) (reviews : list pystr) :
  count_reviews denylist reviews
  = fold_left Counter.incr (phrase_stream denylist reviews) Counter.empty.
Proof. apply fold_count_review_stream. Qed.

Lemma count_reviews_well_formed (denylist : list pystr)
    (reviews : list pystr) :
  Counter.well_formed (count_reviews denylist reviews).
Proof.
  rewrite count_reviews_stream.
  apply fold_incr_well_formed, empty_well_formed.
Qed.

Lemma denied_true_iff (denylist : list pystr) (p : pystr) :
  denied denylist p = true <-> In p denylist.
Proof.
  unfold denied. destruct (in_dec pystr_eq_dec p denylist); split;
    intro H; try reflexivity; try assumption; try discriminate.
  contradiction.
Qed.

Lemma in_phrase_stream (denylist : list pystr) (reviews : list pystr)
    (p : pystr) :
  In p (phrase_stream denylist reviews)
  <-> (exists review, In review reviews /\ In p (bigrams (tokens review)))
      /\ ~ In p denylist.
Proof.
  unfold phrase_stream, surviving. rewrite in_flat_map. split.
  - intros [r [Hr Hp]]. apply filter_In in Hp. destruct Hp as [Hp Hd].
    split; [exists r; tauto|].
    rewrite <- denied_true_iff. destruct (denied denylist p);
      [discriminate|discriminate].
  - intros [[r [Hr Hp]] Hd]. exists r. split; [exact Hr|].
    apply filter_In. split; [exact Hp|].
    rewrite <- denied_true_iff in Hd.
    destruct (denied denylist p); [contradiction Hd; reflexivity|reflexivity].
Qed.

(* ================================================================== *)
(** ** Facts about Before and FirstBefore *)
(* ================================================================== *)

Section BeforeFacts.
Context {A : Type}.

Lemma Before_In_l (x y : A) (l : list A) : Before x y l -> In x l.
Proof. induction 1; simpl; auto. Qed.

Lemma Before_In_r (x y : A) (l : list A) : Before x y l -> In y l.
Proof. induction 1; simpl; auto. Qed.

Lemma Before_app_split (x y : A) (l1 l2 : list A) :
  In x l1 -> In y l2 -> Before x y (l1 ++ l2).
Proof.
  induction l1 as [|z l1 IH]; simpl; intros Hx Hy; [contradiction|].
  destruct Hx as [E|Hx].
  - subst z. apply Before_here. apply in_or_app. right. exact Hy.
  - apply Before_later. apply IH; assumption.
Qed.

Lemma Before_antisym (x y : A) (l : list A) :
  NoDup l -> Before x y l -> ~ Before y x l.
Proof.
  intros Hn H. induction H as [l Hy|z l H IH].
  - inversion Hn as [|? ? Hx Hn']; subst. intro H.
    inversion H as [l' Hx'|z' l' H']; subst.
    + contradiction.
    + apply Hx. eapply Before_In_r. exact H'.
  - inversion Hn as [|? ? Hz Hn']; subst. intro H'.
    inversion H' as [l' Hx'|z' l' H'']; subst.
    + apply Hz. eapply Before_In_r. exact H.
    + apply IH; assumption.
Qed.

Lemma Before_total (x y : A) (l : list A) :
  x <> y -> In x l -> In y l -> Before x y l \/ Before y x l.
Proof.
  intro Hne. induction l as [|z l IH]; simpl; intros Hx Hy; [contradiction|].
  destruct Hx as [Ex|Hx]; destruct Hy as [Ey|Hy].
  - congruence.
  - subst z. left. apply Before_here. exact Hy.
  - subst z. right. apply Before_here. exact Hx.
  - destruct (IH Hx Hy); [left|right]; apply Before_later; assumption.
Qed.

Lemma Before_firstn (x y : A) (l : list A) (m : nat) :
  NoDup l -> Before x y l -> In y (firstn m l) -> Before x y (firstn m l).
Proof.
  intros Hn H. revert m. induction H as [l Hy|z l H IH]; intros m Hm.
  - destruct m as [|m]; simpl in *; [contradiction|].
    inversion Hn as [|? ? Hx Hn']; subst.
    destruct Hm as [E|Hm].
    + subst y. contradiction.
    + apply Before_here. exact Hm.
  - destruct m as [|m]; simpl in *; [contradiction|].
    inversion Hn as [|? ? Hz Hn']; subst.
    destruct Hm as [E|Hm].
    + subst z. exfalso. apply Hz. eapply Before_In_r. exact H.
    + apply Before_later. apply IH; assumption.
Qed.


End BeforeFacts.

Lemma Before_keys_rows (a b : row) (rows : list row) :
  NoDup (map fst rows) ->
  In a rows -> In b rows ->
  Before (fst a) (fst b) (map fst rows) -> Before a b rows.
Proof.
  intros Hn Ha Hb H.
  assert (Hne : a <> b).
  { intro E. subst b. revert H. clear -Hn.
    generalize (fst a) as k. generalize (map fst rows) as l, Hn.
    intros l Hn' k H. remember k as k' in H at 2.
    induction H as [l Hy|z l H IH].
    - subst. inversion Hn'; subst. contradiction.
    - inversion Hn'; subst. auto. }
  destruct (Before_total a b rows Hne Ha Hb) as [H1|H1]; [exact H1|].
  exfalso. apply (Before_antisym (fst a) (fst b) (map fst rows) Hn H).
  clear -H1. induction H1 as [l Hy|z l H IH]; simpl.
  - apply Before_here. apply in_map. exact Hy.
  - apply Before_later. exact IH.
Qed.

(** The Counter keeps its keys in the order of first occurrence. *)
Lemma FirstBefore_keys (p q : pystr) (s : list pystr) (c : Counter.t) :
  FirstBefore p q s ->
  ~ In p (Counter.keys c) -> ~ In q (Counter.keys c) ->
  Before p q (Counter.keys (fold_left Counter.incr s c)).
Proof.
  intro H. revert c. induction H as [l Hne Hq|z l Hzp Hzq H IH];
    intros c Hp Hq'; simpl.
  - destruct (keys_fold_incr l (Counter.incr c p)) as [extra [Hk Hx]].
    rewrite Hk. rewrite keys_incr in *.
    destruct (in_dec pystr_eq_dec p (Counter.keys c)); [contradiction|].
    apply Before_app_split.
    + apply in_or_app. right. simpl. auto.
    + apply Hx. split; [exact Hq|].
      intro Hin. apply in_app_or in Hin. destruct Hin as [Hin|[E|[]]].
      * contradiction.
      * congruence.
  - apply IH; rewrite keys_incr;
      destruct (in_dec pystr_eq_dec z (Counter.keys c)); try assumption;
      intro Hin; apply in_app_or in Hin; destruct Hin as [Hin|[E|[]]];
      try contradiction; congruence.
Qed.

(* ================================================================== *)
(** ** Facts about head and the sort *)
(* ================================================================== *)

Lemma head_prefix (n : Z) (rows : list row) :
  exists m, head n rows = firstn m rows.
Proof.
  unfold head. destruct (0 <=? n)%Z; eexists; reflexivity.
Qed.

Lemma head_length (n : Z) (rows : list row) :
  (0 <= n)%Z -> List.length (head n rows) <= Z.to_nat n.
Proof.
  intro Hn. unfold head.
  destruct (0 <=? n)%Z eqn:E; [|apply Z.leb_gt in E; lia].
  rewrite length_firstn. lia.
Qed.

Lemma In_firstn_In {A : Type} (m : nat) (l : list A) (x : A) :
  In x (firstn m l) -> In x l.
Proof.
  revert l. induction m as [|m IH]; intros [|y l]; simpl; try tauto.
  intros [E|H]; [left; exact E|right; apply IH; exact H].
Qed.

Lemma In_head (n : Z) (rows : list row) (r : row) :
  In r (head n rows) -> In r rows.
Proof.
  destruct (head_prefix n rows) as [m Hm]. rewrite Hm. apply In_firstn_In.
Qed.

Lemma StronglySorted_firstn {A : Type} (R : A -> A -> Prop)
    (m : nat) (l : list A) :
  StronglySorted R l -> StronglySorted R (firstn m l).
Proof.
  revert l. induction m as [|m IH]; intros [|y l] H; simpl;
    try constructor.
  - apply IH. inversion H; assumption.
  - inversion H as [|? ? _ Hall]; subst.
    rewrite Forall_forall in *. intros x Hx. apply Hall.
    eapply In_firstn_In. exact Hx.
Qed.

Lemma insert_desc_perm (e : row) (l : list row) :
  Permutation (insert_desc e l) (e :: l).
Proof.
  induction l as [|x l IH]; simpl; [reflexivity|].
  destruct (frequency x <=? frequency e); [reflexivity|].
  rewrite IH. apply perm_swap.
Qed.

Lemma stable_sort_desc_perm (rows : list row) :
  Permutation (stable_sort_desc rows) rows.
Proof.
  induction rows as [|e rows IH]; simpl; [reflexivity|].
  rewrite insert_desc_perm. constructor. exact IH.
Qed.

Lemma insert_desc_sorted (e : row) (l : list row) :
  StronglySorted (fun a b => frequency b <= frequency a) l ->
  StronglySorted (fun a b => frequency b <= frequency a) (insert_desc e l).
Proof.
  induction l as [|x l IH]; intro H; simpl.
  - constructor; constructor.
  - inversion H as [|? ? Hs Hall]; subst.
    destruct (frequency x <=? frequency e) eqn:E.
    + apply Nat.leb_le in E. constructor; [exact H|].
      constructor; [exact E|].
      eapply Forall_impl; [|exact Hall]. simpl. intros; lia.
    + apply Nat.leb_gt in E. constructor; [apply IH; exact Hs|].
      eapply Permutation_Forall.
      * symmetry. apply insert_desc_perm.
      * constructor; [lia|exact Hall].
Qed.

Lemma stable_sort_desc_sorted (rows : list row) :
  StronglySorted (fun a b => frequency b <= frequency a)
                 (stable_sort_desc rows).
Proof.
  induction rows as [|e rows IH]; simpl; [constructor|].
  apply insert_desc_sorted, IH.
Qed.

Lemma insert_desc_Before_old (e a b : row) (l : list row) :
  Before a b l -> Before a b (insert_desc e l).
Proof.
  induction 1 as [l Hb|z l H IH]; simpl.
  - destruct (frequency a <=? frequency e).
    + apply Before_later, Before_here, Hb.
    + apply Before_here.
      eapply Permutation_in; [symmetry; apply insert_desc_perm|].
      simpl. auto.
  - destruct (frequency z <=? frequency e).
    + apply Before_later, Before_later, H.
    + apply Before_later, IH.
Qed.

Lemma insert_desc_Before_new (e b : row) (l : list row) :
  In b l -> frequency b <= frequency e -> Before e b (insert_desc e l).
Proof.
  induction l as [|x l IH]; simpl; intros Hb Hle; [contradiction|].
  destruct (frequency x <=? frequency e) eqn:E.
  - apply Before_here. exact Hb.
  - apply Nat.leb_gt in E. destruct Hb as [Eb|Hb]; [subst; lia|].
    apply Before_later, IH; assumption.
Qed.

Lemma stable_sort_desc_stable : Stable stable_sort_desc.
Proof.
  intros rows a b _ Hf H. induction H as [l Hb|z l H IH]; simpl.
  - apply insert_desc_Before_new; [|lia].
    eapply Permutation_in; [symmetry; apply stable_sort_desc_perm|exact Hb].
  - apply insert_desc_Before_old, IH.
Qed.

#[export] Instance stable_sort : SortValues := {|
  sort_values := stable_sort_desc;
  sort_values_perm := stable_sort_desc_perm;
  sort_values_desc := stable_sort_desc_sorted
|}.

(* ================================================================== *)
(** ** C1: the order among equal counts *)
(* ================================================================== *)

Lemma frame_keys_nodup (denylist : list pystr) (texts : list (option pystr)) :
  NoDup (map fst (frame denylist texts)).
Proof. apply (count_reviews_well_formed denylist (dropna texts)). Qed.

Lemma sorted_frame_nodup (S : SortValues) (rows : list row) :
  NoDup (map fst rows) -> NoDup (sort_values rows).
Proof.
  intro Hn. apply (NoDup_map_inv fst).
  eapply Permutation_NoDup; [|exact Hn].
  apply Permutation_map. symmetry. apply sort_values_perm.
Qed.

Lemma In_extract (S : SortValues) (texts : list (option pystr))
    (denylist : list pystr) (top_k : Z) (r : row) :
  In r (extract_top_phrases sort_values texts denylist top_k) ->
  In r (frame denylist texts).
Proof.
  unfold extract_top_phrases. intro H. apply In_head in H.
  eapply Permutation_in; [apply sort_values_perm|exact H].
Qed.


Lemma stable_ties_first_seen (S : SortValues)
    (texts : list (option pystr)) (denylist : list pystr) (top_k : Z)
    (p q : pystr) (n : nat) :
  let result := extract_top_phrases (@sort_values S) texts denylist top_k in
  Stable (@sort_values S) ->
  In (p, n) result -> In (q, n) result ->
  FirstBefore p q (phrase_stream denylist (dropna texts)) ->
  Before (p, n) (q, n) result.
Proof.
  intros result Hstable Hp Hq Hfirst.
  assert (Hnk : NoDup (map fst (frame denylist texts)))
    by apply frame_keys_nodup.
  assert (Hns : NoDup (sort_values (frame denylist texts)))
    by (apply sorted_frame_nodup; exact Hnk).
  destruct (head_prefix top_k (sort_values (frame denylist texts)))
    as [m Hm].
  assert (Hr : result = firstn m (sort_values (frame denylist texts)))
    by exact Hm.
  assert (Hp' : In (p, n) (frame denylist texts))
    by (eapply In_extract; exact Hp).
  assert (Hq' : In (q, n) (frame denylist texts))
    by (eapply In_extract; exact Hq).
  assert (Hb : Before (p, n) (q, n) (frame denylist texts)).
  { apply Before_keys_rows; try assumption. simpl.
    unfold frame, Counter.items. rewrite count_reviews_stream.
    apply (FirstBefore_keys p q _ Counter.empty Hfirst); simpl; tauto. }
  apply Hstable in Hb; [|exact Hnk|reflexivity].
  rewrite Hr in *. apply Before_firstn; assumption.
Qed.












(* ================================================================== *)
(** ** C2: length, order and positivity of the ranked result *)
(* ================================================================== *)

(** C2: the ranked result has at most [top_k] entries (at most 10 in the
    program), its counts do not increase along the list (each entry's
    count is at least that of every later entry), and every listed count
    is at least 1. *)
Theorem ranked_result_bounds (S : SortValues)
    (texts : list (option pystr)) (denylist : list pystr) (top_k : Z) :
  let result := extract_top_phrases (@sort_values S) texts denylist top_k in
  ((0 <= top_k)%Z -> List.length result <= Z.to_nat top_k)
  /\ StronglySorted (fun a b => frequency b <= frequency a) result
  /\ Forall (fun r => 1 <= frequency r) result
  /\ forall df, List.length (bigram_df (@sort_values S) df) <= 10.
Proof.
  intro result. split; [|split; [|split]].
  - intro Hk. apply head_length. exact Hk.
  - destruct (head_prefix top_k (sort_values (frame denylist texts)))
      as [m Hm].
    unfold result, extract_top_phrases. rewrite Hm.
    apply StronglySorted_firstn, sort_values_desc.
  - apply Forall_forall. intros r Hr. apply In_extract in Hr.
    destruct (count_reviews_well_formed denylist (dropna texts)) as [_ Hpos].
    rewrite Forall_forall in Hpos. apply Hpos. exact Hr.
  - intro df. unfold bigram_df, extract_top_phrases.
    apply (head_length 10). lia.
Qed.

Lemma ranked_result_bounds_witness :
  List.length (extract_top_phrases stable_sort_desc texts18 [] 10) <= 10.
Proof.
  apply (proj1 (ranked_result_bounds stable_sort texts18 [] 10)).
  vm_compute. discriminate.
Defined.

(* ================================================================== *)
(** ** C3: the denylist excludes by equality only *)
(* ================================================================== *)

Lemma In_dropna (texts : list (option pystr)) (t : pystr) :
  In t (dropna texts) <-> In (Some t) texts.
Proof.
  unfold dropna. rewrite in_flat_map. split.
  - intros [[s|] [Hin Ht]]; simpl in Ht; [|contradiction].
    destruct Ht as [E|[]]. subst. exact Hin.
  - intro H. exists (Some t). simpl. auto.
Qed.

Lemma in_frame_keys (denylist : list pystr) (texts : list (option pystr))
    (p : pystr) :
  In p (Counter.keys (frame denylist texts))
  <-> (exists review, In (Some review) texts
                      /\ In p (bigrams (tokens review)))
      /\ ~ In p denylist.
Proof.
  unfold frame, Counter.items. rewrite count_reviews_stream.
  rewrite in_keys_fold_incr, in_phrase_stream.
  split; intros [[r [Hr Hp]] Hd]; (split; [|exact Hd]); exists r;
    (split; [|exact Hp]); apply In_dropna; exact Hr.
Qed.

(** C3: no phrase of the denylist appears in the result; and a phrase that
    occurs in some text is left out of the accumulated table exactly when
    it is equal to an entry of the denylist. *)
Theorem denylist_excludes_by_equality (S : SortValues)
    (texts : list (option pystr)) (denylist : list pystr) (top_k : Z) :
  Forall (fun r => ~ In (fst r) denylist)
         (extract_top_phrases (@sort_values S) texts denylist top_k)
  /\ forall p,
       In p (Counter.keys (frame denylist texts))
       <-> (exists review, In (Some review) texts
                           /\ In p (bigrams (tokens review)))
           /\ ~ In p denylist.
Proof.
  split.
  - apply Forall_forall. intros r Hr. apply In_extract in Hr.
    assert (Hk : In (fst r) (Counter.keys (frame denylist texts)))
      by (apply in_map; exact Hr).
    apply in_frame_keys in Hk. tauto.
  - apply in_frame_keys.
Qed.

(** A phrase that contains a denylist entry, or is contained in one, is
    still counted. *)
Example denylist_no_substring_match :
  extract_top_phrases stable_sort_desc
    [Some (str "very fast delivery")]
    [str "delivery"; str "fast"; str "very fast delivery"] 10
  = [(str "very fast", 1); (str "fast delivery", 1)].
Proof. vm_compute. reflexivity. Qed.

Example spec_scenario_2 :
  extract_top_phrases stable_sort_desc
    [Some (str "fast delivery but rude staff")] [str "fast delivery"] 5
  = [(str "delivery but", 1); (str "but rude", 1); (str "rude staff", 1)].
Proof. vm_compute. reflexivity. Qed.

(* ================================================================== *)
(** ** C4: N-1 phrases per text, counted across all texts *)
(* ================================================================== *)

Lemma count_occ_phrase_stream (denylist : list pystr)
    (reviews : list pystr) (p : pystr) :
  count_occ pystr_eq_dec (phrase_stream denylist reviews) p
  = if denied denylist p then 0
    else count_occ pystr_eq_dec
           (flat_map (fun review => bigrams (tokens review)) reviews) p.
Proof.
  unfold phrase_stream, surviving.
  induction reviews as [|r reviews IH]; simpl.
  - destruct (denied denylist p); reflexivity.
  - rewrite !count_occ_app, IH. clear IH.
    assert (E : count_occ pystr_eq_dec
                  (filter (fun p0 => negb (denied denylist p0))
                          (bigrams (tokens r))) p
                = if denied denylist p then 0
                  else count_occ pystr_eq_dec (bigrams (tokens r)) p).
    { induction (bigrams (tokens r)) as [|x l IHl]; simpl.
      - destruct (denied denylist p); reflexivity.
      - destruct (pystr_eq_dec x p) as [Ex|Ex].
        + subst x. destruct (denied denylist p) eqn:Hd; simpl.
          * rewrite IHl. reflexivity.
          * destruct (pystr_eq_dec p p); [|congruence].
            rewrite IHl. reflexivity.
        + destruct (denied denylist x); simpl.
          * exact IHl.
          * destruct (pystr_eq_dec x p); [congruence|]. exact IHl. }
    rewrite E. destruct (denied denylist p); reflexivity.
Qed.

(** C4: a text whose normalized form has N tokens yields N-1 phrases
    before the denylist is applied (none when N is 0 or 1), the i-th one
    joining the tokens i and i+1, so that neighbouring phrases share a
    token; and the count of a phrase is the number of its occurrences over
    all the input texts together. *)
Theorem bigram_window_and_global_count :
  (forall review,
      List.length (bigrams (tokens review))
      = List.length (tokens review) - 1)
  /\ (forall words, List.length words <= 1 -> bigrams words = [])
  /\ (forall words i,
         i < List.length words - 1 ->
         nth_error (bigrams words) i
         = Some (nth i words [] ++ [space] ++ nth (i + 1) words []))
  /\ (forall w1 w2 words,
         bigrams (w1 :: w2 :: words)
         = (w1 ++ [space] ++ w2) :: bigrams (w2 :: words))
  /\ (forall denylist texts p,
         Counter.getitem (frame denylist texts) p
         = if denied denylist p then 0
           else count_occ pystr_eq_dec
                  (flat_map (fun review => bigrams (tokens review))
                            (dropna texts)) p).
Proof.
  split; [intro; apply length_bigrams|].
  split; [apply bigrams_short|].
  split; [apply nth_error_bigrams|].
  split; [apply bigrams_cons2|].
  intros denylist texts p.
  unfold frame, Counter.items. rewrite count_reviews_stream.
  rewrite getitem_fold_incr. simpl. apply count_occ_phrase_stream.
Qed.

Lemma bigram_window_and_global_count_witness :
  bigrams [str "late"] = []
  /\ nth_error (bigrams [str "a"; str "b"; str "c"]) 1 = Some (str "b c").
Proof.
  destruct bigram_window_and_global_count as [_ [Hshort [Hnth _]]].
  split.
  - apply Hshort. simpl. lia.
  - apply (Hnth [str "a"; str "b"; str "c"] 1). simpl. lia.
Defined.

(* ================================================================== *)
(** ** C5: normalization and tokenization *)
(* ================================================================== *)

(** C5 (as stated) fails for one accented letter: the lowercase form of
    U+0130 is "i" followed by a combining dot, and only the dot is
    removed, so the letter is not dropped entirely. *)
Lemma accented_capital_i_counterexample :
  is_upper_az capital_i_dot = false
  /\ kept capital_i_dot = false
  /\ lower [capital_i_dot] = [0x69%N; 0x307%N]
  /\ clean_text [capital_i_dot] = str "i"
  /\ tokens ([capital_i_dot] ++ str "stanbul caf" ++ [e_acute])
     = [str "istanbul"; str "caf"].
Proof. vm_compute. repeat split; reflexivity. Qed.

(** C5 (as amended): normalization lowercases the text and removes every
    character of the lowercased text that is not a letter a-z or white
    space.  Code point by code point: a capital A-Z leaves its lowercase
    letter, a letter a-z or a white-space character is kept, U+0130 leaves
    "i", U+212A leaves "k", and every other code point (digits,
    punctuation, emoji, the other accented letters) leaves nothing.
    Tokenization cuts the normalized text at white space and discards the
    empty tokens, so every token is a non-empty word over a-z. *)
Theorem normalization_and_tokens :
  (forall text, clean_text text = filter kept (lower text))
  /\ (forall text,
         Forall (fun c => is_lower_az c = true \/ isspace c = true)
                (clean_text text))
  /\ (forall c text,
         clean_text (c :: text)
         = (if is_upper_az c then [(c + 0x20)%N]
            else if is_lower_az c || isspace c then [c]
            else if (c =? capital_i_dot)%N then str "i"
            else if (c =? kelvin_sign)%N then str "k"
            else [])
           ++ clean_text text)
  /\ (forall text, tokens text = filter nonempty (fields (clean_text text)))
  /\ (forall text,
         Forall (fun t => t <> [] /\ Forall (fun c => is_lower_az c = true) t)
                (tokens text))
  /\ tokens (str "caf" ++ [e_acute] ++ str " wasn't delivered!!")
     = [str "caf"; str "wasnt"; str "delivered"].
Proof.
  split; [reflexivity|].
  split.
  { intro text. eapply Forall_impl; [|apply clean_text_kept].
    intros c Hc. apply orb_true_iff. exact Hc. }
  split.
  { intros c text. rewrite clean_text_cons, clean_char_cases. reflexivity. }
  split; [intro text; apply split_is_split_spec|].
  split; [apply tokens_lowercase_words|].
  vm_compute. reflexivity.
Qed.

(* ================================================================== *)
(** ** C7: missing, empty and white-space-only texts *)
(* ================================================================== *)

Lemma split_all_space (s : pystr) :
  forallb isspace s = true -> split s = [].
Proof.
  unfold split. induction s as [|c s IH]; simpl; [reflexivity|].
  intro H. apply andb_true_iff in H. destruct H as [Hc Hs].
  rewrite Hc. apply IH, Hs.
Qed.

Lemma count_review_blank (denylist : list pystr) (c : Counter.t)
    (s : pystr) :
  blank (Some s) = true -> count_review denylist c s = c.
Proof.
  simpl. intro H. unfold count_review, tokens.
  rewrite (split_all_space _ H). reflexivity.
Qed.

Lemma fold_count_review_skip_blank (denylist : list pystr)
    (texts : list (option pystr)) (c : Counter.t) :
  fold_left (count_review denylist) (dropna texts) c
  = fold_left (count_review denylist)
      (dropna (filter (fun t => negb (blank t)) texts)) c.
Proof.
  revert c. induction texts as [|[s|] texts IH]; intro c.
  - reflexivity.
  - cbn [filter]. destruct (blank (Some s)) eqn:Hb; cbn [negb].
    + cbn [dropna flat_map app fold_left].
      rewrite (count_review_blank _ _ _ Hb). apply IH.
    + cbn [dropna flat_map app fold_left]. apply IH.
  - cbn [filter blank negb dropna flat_map app]. apply IH.
Qed.

Lemma filter_none_left {A : Type} (f : A -> bool) (l : list A) :
  forallb f l = true -> filter (fun x => negb (f x)) l = [].
Proof.
  induction l as [|x l IH]; simpl; [reflexivity|].
  intro H. apply andb_true_iff in H. destruct H as [Hx Hl].
  rewrite Hx. simpl. apply IH, Hl.
Qed.

Lemma head_sort_nil (S : SortValues) (top_k : Z) :
  head top_k (sort_values []) = [].
Proof.
  assert (E : sort_values [] = [])
    by (apply Permutation_nil; symmetry; apply sort_values_perm).
  rewrite E. unfold head. destruct (0 <=? top_k)%Z; simpl;
    [apply firstn_nil|reflexivity].
Qed.

(** C7: missing entries are skipped and texts that are blank after
    normalization contribute nothing: removing them from the input leaves
    the accumulated table unchanged; an input made only of such entries,
    like the empty input, gives the empty result for every [top_k]. *)
Theorem blank_texts_contribute_nothing (S : SortValues)
    (denylist : list pystr) :
  (forall texts,
      frame denylist texts
      = frame denylist (filter (fun t => negb (blank t)) texts))
  /\ (forall texts top_k,
         forallb blank texts = true ->
         extract_top_phrases (@sort_values S) texts denylist top_k = [])
  /\ (forall top_k,
         extract_top_phrases (@sort_values S) [] denylist top_k = []).
Proof.
  assert (Hempty : forall top_k, head top_k (sort_values []) = [])
    by apply head_sort_nil.
  assert (Hframe : forall texts,
             frame denylist texts
             = frame denylist (filter (fun t => negb (blank t)) texts)).
  { intro texts. unfold frame, Counter.items, count_reviews.
    apply fold_count_review_skip_blank. }
  split; [exact Hframe|].
  split.
  - intros texts top_k Hb. unfold extract_top_phrases.
    rewrite Hframe, (filter_none_left _ _ Hb). apply Hempty.
  - intro top_k. apply Hempty.
Qed.

Lemma blank_texts_contribute_nothing_witness :
  extract_top_phrases stable_sort_desc
    [None; Some []; Some (str "   "); Some (str "12 !?")] [] 3 = [].
Proof.
  apply (proj1 (proj2 (blank_texts_contribute_nothing stable_sort []))).
  vm_compute. reflexivity.
Defined.

(* ================================================================== *)
(** ** C9: only records rated 2 or less are counted *)
(* ================================================================== *)

Lemma negative_df_skip (df1 df2 : list FeedbackRecord) (r : FeedbackRecord) :
  (2 < service_rating r)%Q ->
  negative_df (df1 ++ r :: df2) = negative_df (df1 ++ df2).
Proof.
  intro H. unfold negative_df. rewrite !filter_app. simpl.
  destruct (Qle_bool (service_rating r) 2) eqn:E; [|reflexivity].
  apply Qle_bool_iff in E. exfalso. exact (Qlt_not_le _ _ H E).
Qed.

(** C9: the table is built from the feedback of the records whose rating
    is at most 2: a record rated above 2 changes nothing, whatever its
    feedback says, and every phrase in the result occurs in the feedback
    of some record rated at most 2. *)
Theorem only_low_ratings_counted (S : SortValues) :
  (forall df1 r df2,
      (2 < service_rating r)%Q ->
      bigram_df (@sort_values S) (df1 ++ r :: df2)
      = bigram_df (@sort_values S) (df1 ++ df2))
  /\ (forall df entry,
         In entry (bigram_df (@sort_values S) df) ->
         exists r review,
           In r df /\ (service_rating r <= 2)%Q
           /\ customer_feedback r = Some review
           /\ In (fst entry) (bigrams (tokens review)))
  /\ (forall df,
         Forall (fun r => (2 < service_rating r)%Q) df ->
         bigram_df (@sort_values S) df = []).
Proof.
  assert (Hskip : forall df1 r df2,
             (2 < service_rating r)%Q ->
             bigram_df (@sort_values S) (df1 ++ r :: df2)
             = bigram_df (@sort_values S) (df1 ++ df2)).
  { intros df1 r df2 H. unfold bigram_df.
    rewrite (negative_df_skip _ _ _ H). reflexivity. }
  split; [exact Hskip|]. split.
  - intros df entry Hin. unfold bigram_df in Hin. apply In_extract in Hin.
    assert (Hk : In (fst entry)
                    (Counter.keys
                       (frame neutral_phrases
                              (map customer_feedback (negative_df df)))))
      by (apply in_map; exact Hin).
    apply in_frame_keys in Hk. destruct Hk as [[review [Hr Hp]] _].
    apply in_map_iff in Hr. destruct Hr as [r [Hf Hr]].
    unfold negative_df in Hr. apply filter_In in Hr. destruct Hr as [Hr Hq].
    exists r, review. repeat split; try assumption.
    apply Qle_bool_iff. exact Hq.
  - intros df Hall.
    assert (E : negative_df df = []).
    { induction Hall as [|r df Hr _ IH]; [reflexivity|].
      change (r :: df) with ([] ++ r :: df).
      rewrite (negative_df_skip [] df r Hr). exact IH. }
    unfold bigram_df. rewrite E.
    apply (head_sort_nil S).
Qed.

Lemma only_low_ratings_counted_witness :
  bigram_df stable_sort_desc ([low_rated] ++ high_rated :: [low_rated])
  = bigram_df stable_sort_desc ([low_rated] ++ [low_rated]).
Proof.
  apply (proj1 (only_low_ratings_counted stable_sort)).
  vm_compute. reflexivity.
Defined.

(* ================================================================== *)
(** ** C10: words joined by punctuation merge *)
(* ================================================================== *)

Lemma is_lower_az_bounds (c : char) :
  is_lower_az c = true <-> (0x61 <= c <= 0x7A)%N.
Proof.
  unfold is_lower_az, in_range. rewrite andb_true_iff, !N.leb_le. tauto.
Qed.

Lemma lower_az_not_space (c : char) :
  is_lower_az c = true -> isspace c = false.
Proof.
  intro H. apply is_lower_az_bounds in H.
  unfold isspace, in_range. decide_cmp. reflexivity.
Qed.

Lemma lower_az_not_upper (c : char) :
  is_lower_az c = true -> is_upper_az c = false.
Proof.
  intro H. apply is_lower_az_bounds in H.
  unfold is_upper_az, in_range. decide_cmp. reflexivity.
Qed.

Lemma clean_text_lowercase_word (u : pystr) :
  forallb is_lower_az u = true -> clean_text u = u.
Proof.
  induction u as [|c u IH]; simpl; [reflexivity|].
  intro H. apply andb_true_iff in H. destruct H as [Hc Hu].
  rewrite clean_text_cons, clean_char_cases.
  rewrite (lower_az_not_upper c Hc). unfold kept. rewrite Hc. simpl.
  rewrite IH by exact Hu. reflexivity.
Qed.

Lemma clean_text_deleted (s : pystr) :
  forallb is_deleted s = true -> clean_text s = [].
Proof.
  induction s as [|c s IH]; simpl; [reflexivity|].
  intro H. apply andb_true_iff in H. destruct H as [Hc Hs].
  rewrite clean_text_cons, IH by exact Hs.
  unfold is_deleted in Hc. destruct (filter kept (lower_char c));
    [reflexivity|discriminate].
Qed.

Lemma ascii_non_letter_deleted (c : char) :
  (c < 0x80)%N ->
  is_upper_az c = false -> is_lower_az c = false -> isspace c = false ->
  is_deleted c = true.
Proof.
  intros Hc Hu Hl Hs. unfold is_deleted. rewrite clean_char_cases.
  unfold kept. rewrite Hu, Hl, Hs. simpl.
  decide_cmp. reflexivity.
Qed.

(** C10: characters that normalization deletes do not separate words: a
    text reads the same, token for token, with them taken out, so two
    lowercase words joined only by such characters form one token and no
    phrase is built across the join; ASCII digits and punctuation are
    such characters. *)
Theorem punctuation_merges_words :
  (forall u s v,
      forallb is_deleted s = true ->
      tokens (u ++ s ++ v) = tokens (u ++ v))
  /\ (forall u s v,
         forallb is_lower_az u = true -> forallb is_lower_az v = true ->
         u ++ v <> [] ->
         forallb is_deleted s = true ->
         tokens (u ++ s ++ v) = [u ++ v]
         /\ bigrams (tokens (u ++ s ++ v)) = [])
  /\ (forall c,
         (c < 0x80)%N ->
         is_upper_az c = false -> is_lower_az c = false ->
         isspace c = false ->
         is_deleted c = true)
  /\ tokens (str "late,delivery") = [str "latedelivery"]
  /\ bigrams (tokens (str "very late,delivery again"))
     = [str "very latedelivery"; str "latedelivery again"].
Proof.
  assert (Hmerge : forall u s v,
             forallb is_deleted s = true ->
             tokens (u ++ s ++ v) = tokens (u ++ v)).
  { intros u s v Hs. unfold tokens.
    rewrite !clean_text_app, (clean_text_deleted s Hs). reflexivity. }
  split; [exact Hmerge|]. split.
  - intros u s v Hu Hv Hne Hs.
    assert (E : tokens (u ++ s ++ v) = [u ++ v]).
    { rewrite (Hmerge u s v Hs). unfold tokens, split.
      rewrite clean_text_lowercase_word
        by (rewrite forallb_app, Hu, Hv; reflexivity).
      rewrite split_no_space; [reflexivity|left; exact Hne|].
      apply Forall_forall. intros c Hc. apply lower_az_not_space.
      apply in_app_or in Hc. rewrite forallb_forall in Hu, Hv.
      destruct Hc; auto. }
    split; [exact E|]. rewrite E. reflexivity.
  - split; [exact ascii_non_letter_deleted|].
    vm_compute. split; reflexivity.
Qed.

Lemma punctuation_merges_words_witness :
  tokens (str "late" ++ str ",;42" ++ str "delivery") = [str "latedelivery"]
  /\ bigrams (tokens (str "late" ++ str ",;42" ++ str "delivery")) = [].
Proof.
  apply (proj1 (proj2 punctuation_merges_words)
               (str "late") (str ",;42") (str "delivery"));
    try (vm_compute; reflexivity).
  vm_compute. discriminate.
Defined.

(* ================================================================== *)
(** ** Further properties of the ranked result *)
(* ================================================================== *)

Lemma NoDup_firstn {A : Type} (m : nat) (l : list A) :
  NoDup l -> NoDup (firstn m l).
Proof.
  revert l. induction m as [|m IH]; intros [|x l] H; simpl;
    try constructor.
  - inversion H; subst. intro Hin. apply In_firstn_In in Hin. contradiction.
  - inversion H; subst. apply IH. assumption.
Qed.

Lemma getitem_of_entry (c : Counter.t) (p : pystr) (n : nat) :
  NoDup (Counter.keys c) -> In (p, n) c -> Counter.getitem c p = n.
Proof.
  induction c as [|[k m] c IH]; simpl; intros Hn Hin; [contradiction|].
  inversion Hn as [|? ? Hk Hn']; subst.
  destruct Hin as [E|Hin].
  - inversion E; subst. destruct (pystr_eq_dec p p); congruence.
  - destruct (pystr_eq_dec k p) as [E|E].
    + subst k. exfalso. apply Hk.
      change p with (fst (p, n)). apply in_map. exact Hin.
    + apply IH; assumption.
Qed.

(** X1: no phrase is listed twice in the ranked result. *)
Theorem result_phrases_distinct (S : SortValues)
    (texts : list (option pystr)) (denylist : list pystr) (top_k : Z) :
  NoDup (map fst (extract_top_phrases (@sort_values S) texts denylist top_k)).
Proof.
  unfold extract_top_phrases.
  destruct (head_prefix top_k (sort_values (frame denylist texts)))
    as [m Hm].
  rewrite Hm, <- firstn_map. apply NoDup_firstn.
  eapply Permutation_NoDup; [|apply (frame_keys_nodup denylist texts)].
  apply Permutation_map. symmetry. apply sort_values_perm.
Qed.

(** X2: the count listed beside a phrase is the number of times the
    phrase occurs as a pair of neighbouring words over all the texts, and
    it is the count the Counter holds for it. *)
Theorem result_count_is_occurrences (S : SortValues)
    (texts : list (option pystr)) (denylist : list pystr) (top_k : Z)
    (p : pystr) (n : nat) :
  In (p, n) (extract_top_phrases (@sort_values S) texts denylist top_k) ->
  n = count_occ pystr_eq_dec
        (flat_map (fun review => bigrams (tokens review)) (dropna texts)) p
  /\ n = Counter.getitem (count_reviews denylist (dropna texts)) p.
Proof.
  intro Hin. apply In_extract in Hin.
  assert (Hg : Counter.getitem (frame denylist texts) p = n).
  { apply getitem_of_entry; [apply frame_keys_nodup|exact Hin]. }
  split; [|symmetry; exact Hg].
  assert (Hk : In p (Counter.keys (frame denylist texts))).
  { change p with (fst (p, n)). apply in_map. exact Hin. }
  apply in_frame_keys in Hk. destruct Hk as [_ Hd].
  rewrite <- Hg. unfold frame, Counter.items.
  rewrite count_reviews_stream, getitem_fold_incr. simpl.
  rewrite count_occ_phrase_stream.
  destruct (denied denylist p) eqn:E; [|reflexivity].
  apply denied_true_iff in E. contradiction.
Qed.

Lemma result_count_is_occurrences_witness :
  2 = count_occ pystr_eq_dec
        (flat_map (fun review => bigrams (tokens review))
                  (dropna spec_example)) (str "late delivery").
Proof.
  refine (proj1 (result_count_is_occurrences stable_sort spec_example [] 5
                   (str "late delivery") 2 _)).
  vm_compute. tauto.
Defined.

Lemma upper_az_not_space (c : char) :
  is_upper_az c = true -> isspace c = false.
Proof.
  intro H. unfold is_upper_az, in_range in H.
  apply andb_true_iff in H. destruct H as [H1 H2].
  apply N.leb_le in H1. apply N.leb_le in H2.
  unfold isspace, in_range. decide_cmp. reflexivity.
Qed.

Lemma kept_not_upper (c : char) : kept c = true -> is_upper_az c = false.
Proof.
  unfold kept. intro H. apply orb_true_iff in H. destruct H as [H|H].
  - apply lower_az_not_upper. exact H.
  - destruct (is_upper_az c) eqn:E; [|reflexivity].
    apply upper_az_not_space in E. congruence.
Qed.

Lemma clean_text_of_kept (s : pystr) :
  Forall (fun c => kept c = true) s -> clean_text s = s.
Proof.
  induction 1 as [|c s Hc _ IH]; [reflexivity|].
  rewrite clean_text_cons, clean_char_cases, (kept_not_upper c Hc), Hc, IH.
  reflexivity.
Qed.

(** X3: normalization is idempotent: a normalized text normalizes to
    itself, so it yields the same words and the same phrases as the text
    it came from. *)
Theorem clean_text_idempotent (text : pystr) :
  clean_text (clean_text text) = clean_text text
  /\ tokens (clean_text text) = tokens text
  /\ bigrams (tokens (clean_text text)) = bigrams (tokens text).
Proof.
  assert (E : clean_text (clean_text text) = clean_text text)
    by apply clean_text_of_kept, clean_text_kept.
  unfold tokens. rewrite E. auto.
Qed.

Lemma split_from_word_space (w cur rest : pystr) (c : char) :
  Forall (fun x => isspace x = false) w ->
  isspace c = true ->
  rev cur ++ w <> [] ->
  split_from cur (w ++ c :: rest) = (rev cur ++ w) :: split_from [] rest.
Proof.
  revert cur. induction w as [|x w IH]; intros cur Hw Hc Hne; simpl.
  - rewrite Hc, app_nil_r in *. destruct cur as [|d cur]; [|reflexivity].
    contradiction Hne. reflexivity.
  - inversion Hw as [|? ? Hx Hw']; subst. rewrite Hx.
    rewrite IH; try assumption.
    + simpl. rewrite <- app_assoc. reflexivity.
    + simpl. rewrite <- app_assoc. simpl.
      intro E. destruct (rev cur); discriminate.
Qed.

Lemma In_bigrams (words : list pystr) (p : pystr) :
  In p (bigrams words) ->
  exists w1 w2, In w1 words /\ In w2 words /\ p = w1 ++ [space] ++ w2.
Proof.
  unfold bigrams. intro H. apply in_map_iff in H.
  destruct H as [i [Hp Hi]]. apply in_seq in Hi.
  exists (nth i words []), (nth (i + 1) words []).
  split; [apply nth_In; lia|]. split; [apply nth_In; lia|].
  symmetry. exact Hp.
Qed.

(** X4: every phrase of the ranked result is two non-empty words over a-z
    joined by one space, and it is a fixed point of the analysis: as a
    text of its own it splits back into those two words and yields that
    phrase alone. *)
Theorem result_phrase_shape (S : SortValues)
    (texts : list (option pystr)) (denylist : list pystr) (top_k : Z)
    (entry : row) :
  In entry (extract_top_phrases (@sort_values S) texts denylist top_k) ->
  exists w1 w2,
    fst entry = w1 ++ [space] ++ w2
    /\ w1 <> [] /\ w2 <> []
    /\ Forall (fun c => is_lower_az c = true) w1
    /\ Forall (fun c => is_lower_az c = true) w2
    /\ tokens (fst entry) = [w1; w2]
    /\ bigrams (tokens (fst entry)) = [fst entry].
Proof.
  intro Hin. apply In_extract in Hin.
  assert (Hk : In (fst entry) (Counter.keys (frame denylist texts)))
    by (apply in_map; exact Hin).
  apply in_frame_keys in Hk. destruct Hk as [[review [_ Hp]] _].
  apply In_bigrams in Hp. destruct Hp as [w1 [w2 [H1 [H2 E]]]].
  pose proof (tokens_lowercase_words review) as Hw.
  rewrite Forall_forall in Hw.
  destruct (Hw w1 H1) as [Hn1 Hl1]. destruct (Hw w2 H2) as [Hn2 Hl2].
  assert (Hs1 : Forall (fun x => isspace x = false) w1)
    by (eapply Forall_impl; [|exact Hl1]; apply lower_az_not_space).
  assert (Hs2 : Forall (fun x => isspace x = false) w2)
    by (eapply Forall_impl; [|exact Hl2]; apply lower_az_not_space).
  assert (Ht : tokens (fst entry) = [w1; w2]).
  { rewrite E. unfold tokens. rewrite clean_text_of_kept.
    - unfold split. simpl.
      rewrite (split_from_word_space w1 [] w2 space Hs1 eq_refl)
        by (simpl; exact Hn1).
      simpl. rewrite split_no_space; [reflexivity|left; exact Hn2|exact Hs2].
    - apply Forall_app. split.
      + eapply Forall_impl; [|exact Hl1]. intros c Hc. unfold kept.
        rewrite Hc. reflexivity.
      + constructor; [reflexivity|].
        eapply Forall_impl; [|exact Hl2]. intros c Hc. unfold kept.
        rewrite Hc. reflexivity. }
  exists w1, w2. repeat split; try assumption.
  rewrite Ht, E. reflexivity.
Qed.

Lemma result_phrase_shape_witness :
  exists w1 w2,
    str "late delivery" = w1 ++ [space] ++ w2
    /\ w1 <> [] /\ w2 <> []
    /\ Forall (fun c => is_lower_az c = true) w1
    /\ Forall (fun c => is_lower_az c = true) w2
    /\ tokens (str "late delivery") = [w1; w2]
    /\ bigrams (tokens (str "late delivery")) = [str "late delivery"].
Proof.
  refine (result_phrase_shape stable_sort spec_example [] 5
            (str "late delivery", 2) _).
  vm_compute. tauto.
Defined.

Lemma incr_cons (q p : pystr) (n : nat) (c : Counter.t) :
  Counter.incr ((q, n) :: c) p
  = if pystr_eq_dec q p then (q, n + 1) :: c else (q, n) :: Counter.incr c p.
Proof.
  unfold Counter.incr. simpl. destruct (pystr_eq_dec q p); reflexivity.
Qed.

Lemma total_incr (c : Counter.t) (p : pystr) :
  list_sum (map snd (Counter.incr c p)) = list_sum (map snd c) + 1.
Proof.
  induction c as [|[q n] c IH].
  - reflexivity.
  - rewrite incr_cons. destruct (pystr_eq_dec q p); simpl; [lia|].
    rewrite IH. lia.
Qed.

Lemma total_fold_incr (s : list pystr) (c : Counter.t) :
  list_sum (map snd (fold_left Counter.incr s c))
  = list_sum (map snd c) + List.length s.
Proof.
  revert c. induction s as [|p s IH]; intro c; simpl; [lia|].
  rewrite IH, total_incr. lia.
Qed.

Lemma phrase_stream_no_denylist (reviews : list pystr) :
  phrase_stream [] reviews
  = flat_map (fun review => bigrams (tokens review)) reviews.
Proof.
  unfold phrase_stream. apply flat_map_ext. intro r. unfold surviving.
  induction (bigrams (tokens r)) as [|x l IHl]; [reflexivity|].
  cbn [filter denied in_dec negb]. simpl. f_equal. exact IHl.
Qed.

Lemma length_flat_map_bigrams (reviews : list pystr) :
  List.length (flat_map (fun review => bigrams (tokens review)) reviews)
  = list_sum (map (fun review => List.length (tokens review) - 1) reviews).
Proof.
  induction reviews as [|r reviews IH]; simpl; [reflexivity|].
  rewrite length_app, length_bigrams, IH. reflexivity.
Qed.

(** X5: the counts of the accumulated table add up to the number of
    phrase occurrences that passed the denylist; with an empty denylist
    that is the sum, over the texts, of the number of words less one. *)
Theorem counts_add_up (denylist : list pystr)
    (texts : list (option pystr)) :
  list_sum (map frequency (frame denylist texts))
  = List.length (phrase_stream denylist (dropna texts))
  /\ list_sum (map frequency (frame [] texts))
     = list_sum (map (fun review => List.length (tokens review) - 1)
                     (dropna texts)).
Proof.
  assert (H : forall d,
             list_sum (map frequency (frame d texts))
             = List.length (phrase_stream d (dropna texts))).
  { intro d. unfold frame, Counter.items. rewrite count_reviews_stream.
    apply (total_fold_incr _ Counter.empty). }
  split; [apply H|].
  rewrite H, phrase_stream_no_denylist. apply length_flat_map_bigrams.
Qed.

Lemma StronglySorted_split {A : Type} (R : A -> A -> Prop)
    (l1 l2 : list A) (x y : A) :
  StronglySorted R (l1 ++ l2) -> In x l1 -> In y l2 -> R x y.
Proof.
  induction l1 as [|z l1 IH]; simpl; intros Hs Hx Hy; [contradiction|].
  inversion Hs as [|? ? Hs' Hall]; subst.
  destruct Hx as [E|Hx].
  - subst z. rewrite Forall_forall in Hall. apply Hall.
    apply in_or_app. right. exact Hy.
  - apply IH; assumption.
Qed.

(** X6: the ranked result is a best choice: a counted phrase that did not
    make it into the result has a count no larger than that of any entry
    of the result; and when no more than [top_k] phrases were counted,
    the result holds all of them. *)
Theorem result_is_top (S : SortValues)
    (texts : list (option pystr)) (denylist : list pystr) (top_k : Z) :
  let result := extract_top_phrases (@sort_values S) texts denylist top_k in
  (forall left_out entry,
      In left_out (frame denylist texts) -> ~ In left_out result ->
      In entry result -> frequency left_out <= frequency entry)
  /\ ((Z.of_nat (List.length (frame denylist texts)) <= top_k)%Z ->
      Permutation result (frame denylist texts)).
Proof.
  intro result. split.
  - intros r e Hr Hnot He.
    destruct (head_prefix top_k (sort_values (frame denylist texts)))
      as [m Hm].
    assert (E : result = firstn m (sort_values (frame denylist texts)))
      by exact Hm.
    rewrite E in *.
    assert (Hs : In r (sort_values (frame denylist texts))).
    { eapply Permutation_in; [symmetry; apply sort_values_perm|exact Hr]. }
    rewrite <- (firstn_skipn m (sort_values (frame denylist texts))) in Hs.
    apply in_app_or in Hs. destruct Hs as [Hs|Hs]; [contradiction|].
    pose proof (sort_values_desc (frame denylist texts)) as Hd.
    rewrite <- (firstn_skipn m (sort_values (frame denylist texts))) in Hd.
    exact (StronglySorted_split _ _ _ _ _ Hd He Hs).
  - intro Hk. unfold result, extract_top_phrases, head.
    destruct (0 <=? top_k)%Z eqn:E; [|apply Z.leb_gt in E; lia].
    rewrite firstn_all2.
    + apply sort_values_perm.
    + rewrite (Permutation_length (sort_values_perm (frame denylist texts))).
      lia.
Qed.

Lemma result_is_top_witness :
  Permutation (extract_top_phrases stable_sort_desc spec_example [] 5)
              (frame [] spec_example).
Proof.
  apply (proj2 (result_is_top stable_sort spec_example [] 5)).
  vm_compute. discriminate.
Defined.

(** X7: the count of a phrase does not depend on the order in which the
    texts arrive. *)
Theorem counts_ignore_text_order (denylist : list pystr)
    (texts1 texts2 : list (option pystr)) (p : pystr) :
  Permutation texts1 texts2 ->
  Counter.getitem (frame denylist texts1) p
  = Counter.getitem (frame denylist texts2) p.
Proof.
  intro H. unfold frame, Counter.items.
  rewrite !count_reviews_stream, !getitem_fold_incr. f_equal.
  apply Permutation_count_occ.
  unfold phrase_stream, dropna. apply Permutation_flat_map.
  apply Permutation_flat_map. exact H.
Qed.

Lemma counts_ignore_text_order_witness :
  Counter.getitem
    (frame [] [Some (str "late delivery again"); None;
               Some (str "late delivery always")]) (str "late delivery")
  = Counter.getitem
      (frame [] [None; Some (str "late delivery always");
                 Some (str "late delivery again")]) (str "late delivery").
Proof.
  apply counts_ignore_text_order.
  apply (Permutation_cons_app [None; Some (str "late delivery always")] []).
  reflexivity.
Defined.

Section DenylistAsFilter.

Variable denylist : list pystr.

Lemma filter_allowed_cons (q : pystr) (n : nat) (c : Counter.t) :
  filter (allowed_row denylist) ((q, n) :: c)
  = if allowed denylist q then (q, n) :: filter (allowed_row denylist) c
    else filter (allowed_row denylist) c.
Proof. reflexivity. Qed.

Lemma incr_filter_allowed (c : Counter.t) (p : pystr) :
  allowed denylist p = true ->
  Counter.incr (filter (allowed_row denylist) c) p
  = filter (allowed_row denylist) (Counter.incr c p).
Proof.
  intro Hp. induction c as [|[q n] c IH].
  - unfold Counter.incr. simpl. unfold allowed_row. simpl. rewrite Hp.
    reflexivity.
  - rewrite incr_cons, filter_allowed_cons.
    destruct (pystr_eq_dec q p) as [E|E].
    + subst q. rewrite Hp, incr_cons, filter_allowed_cons, Hp.
      destruct (pystr_eq_dec p p); [reflexivity|congruence].
    + rewrite filter_allowed_cons. destruct (allowed denylist q) eqn:Hq.
      * rewrite incr_cons. destruct (pystr_eq_dec q p); [congruence|].
        rewrite IH. reflexivity.
      * exact IH.
Qed.

Lemma incr_filter_denied (c : Counter.t) (p : pystr) :
  allowed denylist p = false ->
  filter (allowed_row denylist) (Counter.incr c p)
  = filter (allowed_row denylist) c.
Proof.
  intro Hp. induction c as [|[q n] c IH].
  - unfold Counter.incr. simpl. unfold allowed_row. simpl. rewrite Hp.
    reflexivity.
  - rewrite incr_cons. destruct (pystr_eq_dec q p) as [E|E].
    + subst q. rewrite !filter_allowed_cons, Hp. reflexivity.
    + rewrite !filter_allowed_cons, IH. reflexivity.
Qed.

Lemma fold_incr_filter (s : list pystr) (c : Counter.t) :
  fold_left Counter.incr (filter (allowed denylist) s)
            (filter (allowed_row denylist) c)
  = filter (allowed_row denylist) (fold_left Counter.incr s c).
Proof.
  revert c. induction s as [|p s IH]; intro c; [reflexivity|].
  cbn [filter fold_left]. destruct (allowed denylist p) eqn:Hp.
  - cbn [fold_left]. rewrite incr_filter_allowed by exact Hp. apply IH.
  - rewrite <- IH, incr_filter_denied by exact Hp. reflexivity.
Qed.

Lemma phrase_stream_filter (reviews : list pystr) :
  phrase_stream denylist reviews
  = filter (allowed denylist) (phrase_stream [] reviews).
Proof.
  rewrite phrase_stream_no_denylist. unfold phrase_stream, surviving.
  induction reviews as [|r reviews IH]; [reflexivity|].
  cbn [flat_map]. rewrite filter_app, IH. reflexivity.
Qed.

End DenylistAsFilter.

(** X8: the denylist acts as a filter on the finished table: counting
    with a denylist gives the table counted without one, less the rows of
    the denylisted phrases, the other rows keeping their counts and their
    order. *)
Theorem denylist_is_a_filter_on_the_table (denylist : list pystr)
    (texts : list (option pystr)) :
  frame denylist texts
  = filter (fun r => negb (denied denylist (fst r))) (frame [] texts).
Proof.
  unfold frame, Counter.items. rewrite !count_reviews_stream.
  rewrite (phrase_stream_filter denylist).
  apply (fold_incr_filter denylist _ Counter.empty).
Qed.

Lemma dropna_app (a b : list (option pystr)) :
  dropna (a ++ b) = dropna a ++ dropna b.
Proof. apply flat_map_app. Qed.

(** X9: texts can be fed in batches: for a second batch appended to a
    first, the phrases of the first keep their places at the front of the
    table, new phrases follow them, and every count is the sum of the
    counts of the two batches taken alone. *)
Theorem appending_texts (denylist : list pystr)
    (texts more : list (option pystr)) :
  (exists added,
      Counter.keys (frame denylist (texts ++ more))
      = Counter.keys (frame denylist texts) ++ added)
  /\ forall p,
       Counter.getitem (frame denylist (texts ++ more)) p
       = Counter.getitem (frame denylist texts) p
         + Counter.getitem (frame denylist more) p.
Proof.
  assert (E : frame denylist (texts ++ more)
              = fold_left Counter.incr
                  (phrase_stream denylist (dropna more))
                  (frame denylist texts)).
  { unfold frame, Counter.items. rewrite !count_reviews_stream.
    rewrite dropna_app. unfold phrase_stream at 1.
    rewrite flat_map_app, fold_left_app. reflexivity. }
  split.
  - rewrite E.
    destruct (keys_fold_incr (phrase_stream denylist (dropna more))
                             (frame denylist texts)) as [extra [Hk _]].
    exists extra. exact Hk.
  - intro p. rewrite E, getitem_fold_incr. f_equal.
    unfold frame, Counter.items.
    rewrite count_reviews_stream, getitem_fold_incr. reflexivity.
Qed.

(* ================================================================== *)
(** ** The sidebar filter and the loaded frame *)
(* ================================================================== *)

Lemma unique_from_spec (col seen : list (option pystr)) (x : option pystr) :
  In x (unique_from seen col) <-> In x col /\ ~ In x seen.
Proof.
  revert seen. induction col as [|y col IH]; intro seen; simpl.
  - tauto.
  - destruct (in_dec cell_eq_dec y seen) as [Hy|Hy].
    + rewrite IH. split.
      * tauto.
      * intros [[E|H] Hn]; [subst; contradiction|tauto].
    + simpl. rewrite IH. simpl.
      destruct (cell_eq_dec y x) as [E|E]; [subst; tauto|tauto].
Qed.

Lemma unique_from_nodup (col seen : list (option pystr)) :
  NoDup (unique_from seen col).
Proof.
  revert seen. induction col as [|y col IH]; intro seen; simpl.
  - constructor.
  - destruct (in_dec cell_eq_dec y seen); [apply IH|].
    constructor; [|apply IH].
    rewrite unique_from_spec. simpl. tauto.
Qed.

Lemma filter_keeps_all {A : Type} (f : A -> bool) (l : list A) :
  (forall x, In x l -> f x = true) -> filter f l = l.
Proof.
  induction l as [|x l IH]; simpl; intro H; [reflexivity|].
  rewrite (H x) by auto. f_equal. apply IH. auto.
Qed.

Lemma isin_true_iff (values : list (option pystr)) (x : option pystr) :
  isin values x = true <-> In x values.
Proof.
  unfold isin. destruct (in_dec cell_eq_dec x values); split; intro H;
    try reflexivity; try assumption; try discriminate. contradiction.
Qed.

(** X10: the options the sidebar offers are the distinct values of the
    column, and with everything selected, as the page opens, the filter
    keeps every row. *)
Theorem default_selection_keeps_all (df : list Order) :
  NoDup (unique (map platform df))
  /\ (forall x, In x (unique (map platform df)) <-> In x (map platform df))
  /\ sidebar_filter (unique (map platform df))
                    (unique (map product_category df)) df
     = df.
Proof.
  split; [apply unique_from_nodup|].
  split.
  - intro x. unfold unique. rewrite unique_from_spec. simpl. tauto.
  - apply filter_keeps_all. intros o Ho. apply andb_true_iff.
    split; apply isin_true_iff; unfold unique; rewrite unique_from_spec;
      (split; [apply in_map; exact Ho|simpl; tauto]).
Qed.

Lemma In_load_rows (kept : list (RawRow * Q * Q)) (start : nat) (o : Order) :
  In o (load_rows start kept) ->
  exists i x, In x kept /\ o = load_row i x.
Proof.
  revert start. induction kept as [|x kept IH]; intro start; simpl;
    [contradiction|].
  intros [E|H].
  - exists start, x. auto.
  - destruct (IH _ H) as [i [y [Hy E]]]. exists i, y. auto.
Qed.

Lemma In_dropna_subset (raw : list RawRow) (r : RawRow) (t s : Q) :
  In (r, t, s) (dropna_subset raw) ->
  In r raw /\ raw_delivery_time r = Some t /\ raw_service_rating r = Some s.
Proof.
  unfold dropna_subset. rewrite in_flat_map. intros [r' [Hr H]].
  destruct (raw_delivery_time r') as [t'|] eqn:Et; [|contradiction].
  destruct (raw_service_rating r') as [s'|] eqn:Es; [|contradiction].
  destruct H as [E|[]]. inversion E; subst. auto.
Qed.

(** X11: what reaches the complaint table of the script: every phrase in
    it occurs in the feedback of a row of the file whose delivery time and
    rating are both numbers, whose rating is at most 2, and whose platform
    and category are among those selected in the sidebar. *)
Theorem script_table_provenance (S : SortValues)
    (platforms categories : list (option pystr)) (raw : list RawRow)
    (entry : row) :
  In entry (script_bigram_df (@sort_values S) platforms categories raw) ->
  exists r t s review,
    In r raw
    /\ raw_delivery_time r = Some t
    /\ raw_service_rating r = Some s /\ (s <= 2)%Q
    /\ In (raw_platform r) platforms
    /\ In (raw_product_category r) categories
    /\ raw_customer_feedback r = Some review
    /\ In (fst entry) (bigrams (tokens review)).
Proof.
  unfold script_bigram_df, bigram_df. intro Hin. apply In_extract in Hin.
  assert (Hk : In (fst entry)
                  (Counter.keys
                     (frame neutral_phrases
                        (map customer_feedback
                           (negative_df
                              (map feedback_record
                                 (sidebar_filter platforms categories
                                    (load_data raw))))))))
    by (apply in_map; exact Hin).
  apply in_frame_keys in Hk. destruct Hk as [[review [Hr Hp]] _].
  apply in_map_iff in Hr. destruct Hr as [f [Hf Hr]].
  unfold negative_df in Hr. apply filter_In in Hr. destruct Hr as [Hr Hq].
  apply in_map_iff in Hr. destruct Hr as [o [Ho Hr]].
  unfold sidebar_filter in Hr. apply filter_In in Hr.
  destruct Hr as [Hr Hsel]. apply andb_true_iff in Hsel.
  destruct Hsel as [Hpl Hcat].
  apply isin_true_iff in Hpl. apply isin_true_iff in Hcat.
  apply In_load_rows in Hr. destruct Hr as [i [[[r t] s] [Hx E]]].
  apply In_dropna_subset in Hx. destruct Hx as [Hraw [Ht Hs]].
  subst o f. simpl in *.
  exists r, t, s, review. repeat split; try assumption.
  apply Qle_bool_iff. exact Hq.
Qed.

Lemma script_table_provenance_witness :
  exists r t s review,
    In r [raw_late]
    /\ raw_delivery_time r = Some t
    /\ raw_service_rating r = Some s /\ (s <= 2)%Q
    /\ In (raw_platform r) [Some (str "Blinkit")]
    /\ In (raw_product_category r) [Some (str "Grocery")]
    /\ raw_customer_feedback r = Some review
    /\ In (str "late delivery") (bigrams (tokens review)).
Proof.
  refine (script_table_provenance stable_sort
            [Some (str "Blinkit")] [Some (str "Grocery")] [raw_late]
            (str "late delivery", 1) _).
  vm_compute. tauto.
Defined.

Lemma sidebar_filter_no_platform (categories : list (option pystr))
    (df : list Order) :
  sidebar_filter [] categories df = [].
Proof.
  unfold sidebar_filter. induction df as [|o df IH]; [reflexivity|].
  simpl. exact IH.
Qed.

Lemma sidebar_filter_no_category (platforms : list (option pystr))
    (df : list Order) :
  sidebar_filter platforms [] df = [].
Proof.
  unfold sidebar_filter. induction df as [|o df IH]; [reflexivity|].
  simpl. rewrite andb_false_r. exact IH.
Qed.

(** X12: with no platform selected, or no category, the filtered frame is
    empty and the complaint table is empty. *)
Theorem empty_selection_empty_table (S : SortValues)
    (selection : list (option pystr)) (raw : list RawRow) :
  sidebar_filter [] selection (load_data raw) = []
  /\ sidebar_filter selection [] (load_data raw) = []
  /\ script_bigram_df (@sort_values S) [] selection raw = []
  /\ script_bigram_df (@sort_values S) selection [] raw = [].
Proof.
  split; [apply sidebar_filter_no_platform|].
  split; [apply sidebar_filter_no_category|].
  unfold script_bigram_df.
  rewrite sidebar_filter_no_platform, sidebar_filter_no_category.
  split; apply (head_sort_nil S).
Qed.

(* ================================================================== *)
(** ** Synthetic time, the evening orders and the insights block *)
(* ================================================================== *)

Lemma evening_hour_positions (i : nat) :
  (18 <= hour (synthetic_datetime i) <= 23)%Z <-> 54 <= i mod 72.
Proof.
  unfold hour, synthetic_datetime.
  pose proof (Nat.div_mod_eq i 72) as Hi.
  pose proof (Nat.mod_upper_bound i 72 ltac:(lia)) as Hr.
  set (q := i / 72) in *. set (r := i mod 72) in *. clearbody q r.
  Z.to_euclidean_division_equations. lia.
Qed.

Lemma nth_error_load_rows (kept : list (RawRow * Q * Q)) (start i : nat)
    (o : Order) :
  nth_error (load_rows start kept) i = Some o ->
  exists x, nth_error kept i = Some x /\ o = load_row (start + i) x.
Proof.
  revert start i. induction kept as [|x kept IH]; intros start i H.
  - destruct i; discriminate.
  - destruct i as [|i]; simpl in H.
    + inversion H; subst. exists x. rewrite Nat.add_0_r. auto.
    + destruct (IH _ _ H) as [y [Hy E]]. exists y. split; [exact Hy|].
      rewrite E. f_equal. lia.
Qed.

Lemma load_row_datetime (i : nat) (x : RawRow * Q * Q) :
  order_datetime (load_row i x) = synthetic_datetime i.
Proof. destruct x as [[r t] s]. reflexivity. Qed.

(** X13: which orders count as evening orders is a matter of position
    alone: the i-th row of the loaded frame (counting from 0, rows with a
    missing number not counted) carries the stamp of 20 i minutes after
    the start, and it falls between 18 and 23 o'clock exactly when the
    remainder of i by 72 is at least 54. *)
Theorem evening_orders_by_position (raw : list RawRow) (i : nat) (o : Order) :
  nth_error (load_data raw) i = Some o ->
  (Z.of_nat i < max_stamped_rows)%Z ->
  order_datetime o = (Z.of_nat i * 20)%Z
  /\ (In o (evening (load_data raw)) <-> 54 <= i mod 72).
Proof.
  intros Hnth _. unfold load_data in *.
  destruct (nth_error_load_rows _ _ _ _ Hnth) as [x [_ E]]. simpl in E.
  assert (Hd : order_datetime o = synthetic_datetime i)
    by (rewrite E; apply load_row_datetime).
  split; [exact Hd|].
  unfold evening. rewrite filter_In, Hd, andb_true_iff, !Z.leb_le.
  rewrite <- evening_hour_positions. split; [tauto|].
  intro H. split; [|exact H]. eapply nth_error_In. exact Hnth.
Qed.

Lemma evening_orders_by_position_witness :
  order_datetime (load_row 0 (raw_late, 45%Q, 1%Q)) = (Z.of_nat 0 * 20)%Z
  /\ (In (load_row 0 (raw_late, 45%Q, 1%Q)) (evening (load_data [raw_late]))
      <-> 54 <= 0 mod 72).
Proof.
  apply (evening_orders_by_position [raw_late] 0).
  - reflexivity.
  - reflexivity.
Defined.

Lemma size_insert_not_nil (k : pystr) (groups : list (pystr * nat)) :
  size_insert k groups <> [].
Proof.
  destruct groups as [|[k' n] groups]; simpl; [discriminate|].
  destruct (pystr_compare k k'); discriminate.
Qed.

Lemma fold_size_insert_not_nil (col : list pystr)
    (groups : list (pystr * nat)) :
  groups <> [] ->
  fold_left (fun g k => size_insert k g) col groups <> [].
Proof.
  revert groups. induction col as [|k col IH]; intros groups H; simpl;
    [exact H|].
  apply IH, size_insert_not_nil.
Qed.

Lemma groupby_size_nil (col : list pystr) :
  groupby_size col = [] <-> col = [].
Proof.
  split; [|intro E; subst; reflexivity].
  destruct col as [|k col]; [reflexivity|].
  unfold groupby_size. simpl. intro H. exfalso.
  revert H. apply fold_size_insert_not_nil. discriminate.
Qed.

Lemma dropna_nil (col : list (option pystr)) :
  dropna col = [] <-> forall x, In x col -> x = None.
Proof.
  induction col as [|[s|] col IH]; simpl.
  - split; [intros _ x []|reflexivity].
  - split; [discriminate|]. intro H. specialize (H (Some s)).
    discriminate H. auto.
  - rewrite IH. split.
    + intros H x [E|Hx]; [auto|apply H; exact Hx].
    + intros H x Hx. apply H. auto.
Qed.

Lemma group_keys_nil (col : list (option pystr)) :
  group_keys col = [] <-> forall x, In x col -> x = None.
Proof.
  unfold group_keys. rewrite <- dropna_nil.
  rewrite <- (groupby_size_nil (dropna col)).
  destruct (groupby_size (dropna col)) as [|g groups]; simpl.
  - tauto.
  - split; intro H; discriminate H.
Qed.

Lemma group_keys_of_column {A : Type} (f : A -> option pystr) (l : list A) :
  group_keys (map f l) = [] <-> forall o, In o l -> f o = None.
Proof.
  rewrite group_keys_nil. split.
  - intros H o Ho. apply H. apply in_map. exact Ho.
  - intros H x Hx. apply in_map_iff in Hx. destruct Hx as [o [E Ho]].
    subst x. apply H. exact Ho.
Qed.

Lemma insights_error_cases (df : list Order) :
  executive_insights df = IndexError
  <-> (forall o, In o df -> delivery_delay o = None)
      \/ (forall o, In o df -> refund_requested o = None)
      \/ (forall o, In o (evening df) -> platform o = None).
Proof.
  rewrite <- !group_keys_of_column. unfold executive_insights.
  destruct (group_keys (map delivery_delay df));
    destruct (group_keys (map refund_requested df));
    destruct (group_keys (map platform (evening df)));
    split; intro H; try reflexivity; try discriminate; auto;
    destruct H as [H|[H|H]]; discriminate.
Qed.

Lemma no_evening_index_error (df : list Order) :
  evening_panel df = NoEveningData -> executive_insights df = IndexError.
Proof.
  intro Hp. apply insights_error_cases. right. right.
  unfold evening_panel in Hp.
  destruct (evening df); [intros o []|discriminate].
Qed.

(** X14: the insights block ends in an IndexError exactly when no order
    of the frame has a delivery-delay flag, or none has a refund flag, or
    no evening order has a platform; so it does whenever the evening panel
    reports that there is no evening data, the empty frame included. *)
Theorem insights_index_error (df : list Order) :
  (executive_insights df = IndexError
   <-> (forall o, In o df -> delivery_delay o = None)
       \/ (forall o, In o df -> refund_requested o = None)
       \/ (forall o, In o (evening df) -> platform o = None))
  /\ (evening_panel df = NoEveningData -> executive_insights df = IndexError)
  /\ executive_insights [] = IndexError.
Proof.
  split; [apply insights_error_cases|].
  split; [apply no_evening_index_error|reflexivity].
Qed.

Lemma insights_index_error_witness :
  executive_insights (load_data [raw_late]) = IndexError.
Proof.
  apply (proj1 (proj2 (insights_index_error (load_data [raw_late])))).
  reflexivity.
Defined.

(** X15: a file that loads (each flag column holds a string and some
    row is kept) and has at most 54 usable rows has no evening order,
    whatever is selected in the sidebar: the evening panel reports that
    there is no data and the insights block ends in an IndexError. *)
Theorem small_file_has_no_evening (raw : list RawRow)
    (platforms categories : list (option pystr)) :
  load_succeeds raw ->
  List.length (load_data raw) <= 54 ->
  let df := sidebar_filter platforms categories (load_data raw) in
  evening df = []
  /\ evening_panel df = NoEveningData
  /\ executive_insights df = IndexError.
Proof.
  intros _ Hlen df.
  assert (E : evening df = []).
  { destruct (evening df) as [|o rest] eqn:Hev; [reflexivity|exfalso].
    assert (Ho : In o (evening df)) by (rewrite Hev; simpl; auto).
    unfold evening in Ho. apply filter_In in Ho. destruct Ho as [Ho Hh].
    unfold df, sidebar_filter in Ho. apply filter_In in Ho.
    destruct Ho as [Ho _]. apply In_nth_error in Ho.
    destruct Ho as [i Hi].
    assert (Hi' : i < List.length (load_data raw))
      by (apply nth_error_Some; rewrite Hi; discriminate).
    unfold load_data in Hi.
    destruct (nth_error_load_rows _ _ _ _ Hi) as [x [_ Ex]]. simpl in Ex.
    rewrite Ex, load_row_datetime, andb_true_iff, !Z.leb_le in Hh.
    apply evening_hour_positions in Hh.
    rewrite Nat.mod_small in Hh by lia. lia. }
  split; [exact E|].
  assert (Hp : evening_panel df = NoEveningData)
    by (unfold evening_panel; rewrite E; reflexivity).
  split; [exact Hp|].
  apply no_evening_index_error. exact Hp.
Qed.

Lemma small_file_has_no_evening_witness :
  evening (sidebar_filter [Some (str "Blinkit")] [Some (str "Grocery")]
                          (load_data [raw_late])) = []
  /\ evening_panel (sidebar_filter [Some (str "Blinkit")]
                      [Some (str "Grocery")] (load_data [raw_late]))
     = NoEveningData
  /\ executive_insights (sidebar_filter [Some (str "Blinkit")]
                           [Some (str "Grocery")] (load_data [raw_late]))
     = IndexError.
Proof.
  apply (small_file_has_no_evening [raw_late]).
  - split; [exists (str "Yes"); simpl; auto|].
    split; [exists (str "No"); simpl; auto|]. discriminate.
  - simpl. lia.
Defined.

(* ================================================================== *)
(** ** The SLA chart *)
(* ================================================================== *)

Lemma size_insert_no (a b : nat) :
  size_insert (str "No") (sla_bars a b) = sla_bars (a + 1) b.
Proof.
  unfold sla_bars. destruct a as [|a]; destruct b as [|b]; reflexivity.
Qed.

Lemma size_insert_yes (a b : nat) :
  size_insert (str "Yes") (sla_bars a b) = sla_bars a (b + 1).
Proof.
  unfold sla_bars. destruct a as [|a]; destruct b as [|b]; reflexivity.
Qed.

Lemma fold_sla_bars (df : list Order) (a b : nat) :
  (forall o, In o df -> sla_breach o = sla_flag (delivery_time o)) ->
  fold_left (fun g k => size_insert k g) (map sla_breach df) (sla_bars a b)
  = sla_bars (a + count_within df) (b + count_beyond df).
Proof.
  revert a b. induction df as [|o df IH]; intros a b H.
  - unfold count_within, count_beyond. simpl. rewrite !Nat.add_0_r.
    reflexivity.
  - cbn [map fold_left]. rewrite (H o) by (simpl; auto).
    unfold count_within, count_beyond in *. cbn [filter].
    unfold sla_flag. destruct (Qle_bool (delivery_time o) 30); cbn [negb].
    + rewrite size_insert_no, IH by (intros; apply H; simpl; auto).
      cbn [List.length]. rewrite <- Nat.add_assoc. reflexivity.
    + rewrite size_insert_yes, IH by (intros; apply H; simpl; auto).
      cbn [List.length]. rewrite <- Nat.add_assoc. reflexivity.
Qed.

Lemma loaded_sla_flag (raw : list RawRow) (o : Order) :
  In o (load_data raw) -> sla_breach o = sla_flag (delivery_time o).
Proof.
  intro H. apply In_load_rows in H. destruct H as [i [[[r t] s] [_ E]]].
  subst o. reflexivity.
Qed.

Lemma split_by_test {A : Type} (f : A -> bool) (l : list A) :
  List.length (filter f l) + List.length (filter (fun x => negb (f x)) l)
  = List.length l.
Proof.
  induction l as [|x l IH]; simpl; [reflexivity|].
  destruct (f x); simpl; lia.
Qed.

(** X16: the SLA chart of the filtered frame has a bar "No" with the
    number of orders delivered within 30 minutes and, after it, a bar
    "Yes" with the number delivered later, a bar being absent when its
    number is 0; the bars add up to the "Total Orders" figure. *)
Theorem sla_chart_bars (raw : list RawRow)
    (platforms categories : list (option pystr)) :
  let df := sidebar_filter platforms categories (load_data raw) in
  sla_df df = sla_bars (count_within df) (count_beyond df)
  /\ list_sum (map snd (sla_df df)) = List.length df.
Proof.
  intro df.
  assert (E : sla_df df = sla_bars (count_within df) (count_beyond df)).
  { unfold sla_df, groupby_size.
    change (@nil (pystr * nat)) with (sla_bars 0 0).
    rewrite fold_sla_bars; [reflexivity|].
    intros o Ho. apply (loaded_sla_flag raw).
    unfold df, sidebar_filter in Ho. apply filter_In in Ho. tauto. }
  split; [exact E|].
  rewrite E. unfold sla_bars, count_within, count_beyond.
  pose proof (split_by_test (fun o => Qle_bool (delivery_time o) 30) df) as L.
  destruct (List.length
              (filter (fun o => Qle_bool (delivery_time o) 30) df));
    destruct (List.length
                (filter (fun o => negb (Qle_bool (delivery_time o) 30)) df));
    simpl in *; lia.
Qed.

(* ================================================================== *)
(** ** Column names *)
(* ================================================================== *)

Lemma lstrip_solid_head (s : pystr) : solid_head (lstrip s).
Proof.
  induction s as [|c s IH]; simpl; [exact I|].
  destruct (isspace c) eqn:E; [exact IH|]. simpl. exact E.
Qed.

Lemma lstrip_of_solid (s : pystr) : solid_head s -> lstrip s = s.
Proof.
  destruct s as [|c s]; simpl; [reflexivity|]. intro H. rewrite H.
  reflexivity.
Qed.

Lemma lstrip_before_solid (a b : pystr) (c : char) :
  isspace c = false -> lstrip (a ++ c :: b) = lstrip a ++ c :: b.
Proof.
  intro Hc. induction a as [|x a IH]; simpl.
  - rewrite Hc. reflexivity.
  - destruct (isspace x); [exact IH|reflexivity].
Qed.

Lemma strip_solid_ends (s : pystr) : solid_ends (strip s).
Proof.
  unfold solid_ends, strip, rstrip. split.
  - pose proof (lstrip_solid_head s) as Hm.
    destruct (lstrip s) as [|c t]; [exact I|]. simpl in Hm.
    simpl rev. rewrite (lstrip_before_solid (rev t) [] c Hm).
    rewrite rev_app_distr. simpl. exact Hm.
  - rewrite rev_involutive. apply lstrip_solid_head.
Qed.

Lemma strip_of_solid (s : pystr) : solid_ends s -> strip s = s.
Proof.
  intros [Hh Hl]. unfold strip, rstrip.
  rewrite (lstrip_of_solid s Hh), (lstrip_of_solid (rev s) Hl).
  apply rev_involutive.
Qed.

Lemma standard_char_facts (c : char) :
  is_ascii c ->
  is_ascii (standard_char c)
  /\ is_upper_az (standard_char c) = false
  /\ standard_char c <> space
  /\ standard_char (standard_char c) = standard_char c
  /\ (isspace c = false -> isspace (standard_char c) = false).
Proof.
  unfold is_ascii, standard_char, lower_ascii, space, underscore.
  intro Hc. destruct (is_upper_az c) eqn:Hu.
  - unfold is_upper_az, in_range in Hu. apply andb_true_iff in Hu.
    destruct Hu as [H1 H2]. apply N.leb_le in H1. apply N.leb_le in H2.
    assert (E : ((c + 0x20 =? 0x20) = false)%N) by (apply N.eqb_neq; lia).
    rewrite E. unfold is_upper_az, isspace, in_range.
    decide_cmp. simpl. rewrite ?E.
    repeat split; try reflexivity; try lia.
  - destruct (c =? 0x20)%N eqn:Es.
    + apply N.eqb_eq in Es. subst c. vm_compute.
      repeat split; try reflexivity; try discriminate.
    + rewrite Hu, Es. apply N.eqb_neq in Es.
      repeat split; try assumption; try reflexivity. tauto.
Qed.

Lemma solid_head_map (s : pystr) :
  Forall is_ascii s -> solid_head s -> solid_head (map standard_char s).
Proof.
  destruct s as [|c s]; simpl; [tauto|].
  intros H Hc. inversion H; subst.
  apply (standard_char_facts c); assumption.
Qed.

Lemma standardize_by_char (name : pystr) :
  standardize_column name = map standard_char (strip name).
Proof.
  unfold standardize_column, replace_space. rewrite map_map. reflexivity.
Qed.

Lemma lstrip_ascii (s : pystr) :
  Forall is_ascii s -> Forall is_ascii (lstrip s).
Proof.
  induction 1 as [|c s Hc Hs IH]; simpl; [constructor|].
  destruct (isspace c); [exact IH|constructor; assumption].
Qed.

Lemma strip_ascii (s : pystr) :
  Forall is_ascii s -> Forall is_ascii (strip s).
Proof.
  intro H. unfold strip, rstrip.
  apply Forall_rev, lstrip_ascii, Forall_rev, lstrip_ascii, H.
Qed.

(** X17: for a column name written in plain ASCII, the standardized name
    holds no space and no capital A-Z, and standardizing it again changes
    nothing. *)
Theorem standardize_column_idempotent (name : pystr) :
  Forall plain_ascii name ->
  Forall (fun c => c <> space /\ is_upper_az c = false)
         (standardize_column name)
  /\ standardize_column (standardize_column name)
     = standardize_column name.
Proof.
  intro Hplain.
  assert (Ha : Forall is_ascii name).
  { eapply Forall_impl; [|exact Hplain]. intros c [Hc _]. exact Hc. }
  pose proof (strip_ascii name Ha) as Hs.
  rewrite Forall_forall in Hs.
  pose proof (standardize_by_char name) as E.
  split.
  - rewrite E. apply Forall_forall. intros c Hc. apply in_map_iff in Hc.
    destruct Hc as [d [Ed Hd]]. subst c.
    destruct (standard_char_facts d (Hs d Hd)) as [_ [Hu [Hsp _]]].
    split; assumption.
  - rewrite (standardize_by_char (standardize_column name)).
    assert (Hsolid : solid_ends (standardize_column name)).
    { rewrite E. destruct (strip_solid_ends name) as [Hh Hl]. split.
      - apply solid_head_map; [apply Forall_forall; exact Hs|exact Hh].
      - rewrite <- map_rev. apply solid_head_map; [|exact Hl].
        apply Forall_rev, Forall_forall. exact Hs. }
    rewrite (strip_of_solid _ Hsolid), E, map_map.
    apply map_ext_in. intros c Hc.
    apply (standard_char_facts c), Hs, Hc.
Qed.

Lemma standardize_column_idempotent_witness :
  standardize_column (standardize_column (str "  Delivery Time (Minutes) "))
  = standardize_column (str "  Delivery Time (Minutes) ").
Proof.
  refine (proj2 (standardize_column_idempotent
                   (str "  Delivery Time (Minutes) ") _)).
  vm_compute.
  repeat (constructor;
          [split; [reflexivity|intros [_ H]; apply H; reflexivity]|]).
  constructor.
Defined.

(* ================================================================== *)
(** ** Nothing but the letters: what split and clean_text preserve *)
(* ================================================================== *)

Lemma concat_split_from (s cur : pystr) :
  concat (split_from cur s)
  = rev cur ++ filter (fun c => negb (isspace c)) s.
Proof.
  revert cur. induction s as [|c s IH]; intro cur; simpl.
  - rewrite app_nil_r. destruct cur; [reflexivity|].
    simpl. rewrite app_nil_r. reflexivity.
  - destruct (isspace c) eqn:Hc; simpl.
    + destruct cur as [|d cur]; [apply IH|].
      simpl. rewrite IH. reflexivity.
    + rewrite IH. simpl. rewrite <- app_assoc. reflexivity.
Qed.

Lemma filter_filter {A : Type} (f g : A -> bool) (l : list A) :
  filter f (filter g l) = filter (fun x => g x && f x) l.
Proof.
  induction l as [|x l IH]; simpl; [reflexivity|].
  destruct (g x); simpl; [destruct (f x); rewrite IH; reflexivity|exact IH].
Qed.

(** X18: the words of a review, written one after the other, are the
    letters a-z of its lowercase form in their order: tokenization loses
    no letter, adds none and moves none. *)
Theorem tokens_keep_the_letters (review : pystr) :
  concat (tokens review) = filter is_lower_az (lower review).
Proof.
  unfold tokens, split, clean_text.
  rewrite concat_split_from, filter_filter. simpl.
  apply filter_ext. intro c. unfold kept.
  destruct (is_lower_az c) eqn:Hl; simpl.
  - rewrite (lower_az_not_space c Hl). reflexivity.
  - destruct (isspace c); reflexivity.
Qed.

(** X19: one turn of the inner loop: a denylisted phrase leaves the
    Counter as it is; any other phrase gets its count raised by one, the
    other counts stay, and the keys stay in place, the phrase being put
    last when it is new.  The loop keeps the keys distinct and every
    count at least 1. *)
Theorem count_phrase_effect (denylist : list pystr) (c : Counter.t)
    (p : pystr) :
  (In p denylist -> count_phrase denylist c p = c)
  /\ (~ In p denylist ->
      Counter.getitem (count_phrase denylist c p) p
      = Counter.getitem c p + 1
      /\ (forall q, q <> p ->
            Counter.getitem (count_phrase denylist c p) q
            = Counter.getitem c q)
      /\ Counter.keys (count_phrase denylist c p)
         = if in_dec pystr_eq_dec p (Counter.keys c)
           then Counter.keys c else Counter.keys c ++ [p])
  /\ (Counter.well_formed c ->
      Counter.well_formed (count_phrase denylist c p)).
Proof.
  unfold count_phrase. split; [|split].
  - intro H. apply denied_true_iff in H. rewrite H. reflexivity.
  - intro H. destruct (denied denylist p) eqn:E;
      [apply denied_true_iff in E; contradiction|].
    split; [|split].
    + rewrite getitem_incr. destruct (pystr_eq_dec p p); congruence.
    + intros q Hq. rewrite getitem_incr.
      destruct (pystr_eq_dec p q); congruence.
    + apply keys_incr.
  - intro H. destruct (denied denylist p); [exact H|].
    apply incr_well_formed. exact H.
Qed.

Lemma count_phrase_effect_witness :
  count_phrase neutral_phrases [(str "late delivery", 2)]
               (str "fast delivery")
  = [(str "late delivery", 2)].
Proof.
  apply (proj1 (count_phrase_effect neutral_phrases
                  [(str "late delivery", 2)] (str "fast delivery"))).
  vm_compute. tauto.
Defined.
